(** * XMPP task layer: a shallow embedding of [XMPP::Task] and [Stanza::Error]

    Sources embedded here:
    - [src/xmpp/xmpp-im/xmpp_task.h], [src/xmpp/xmpp-im/xmpp_task.cpp]
      (class [Task] and its private data [TaskPrivate]);
    - [src/xmpp/xmpp-core/xmpp_stanza.h] (class [Stanza::Error]: fields and
      enumerations).

    C++ [int] values are [Z], [QString] is [string], a nullable pointer is an
    [option].  Side effects that leave the task object (warnings, the virtual
    send hook, the emitted signal, destruction) are appended to an effect log;
    work handed to the Qt event loop is appended to a queue of deferred
    calls. *)

From Stdlib Require Import ZArith List String Ascii Bool Lia.
Import ListNotations.
Open Scope string_scope.
Open Scope Z_scope.
Set Warnings "-register-all".

(** ** Faults and the error monad *)

Inductive Fault :=
| NullClient    (* a method dereferenced [d->client] while it was null *)
| NotifyDepth.  (* the bound on nested [finished()] emissions was reached *)

Inductive result (A : Type) :=
| Ok (a : A)
| Fail (f : Fault).
Arguments Ok {A} a.
Arguments Fail {A} f.

Definition bind {A B} (m : result A) (k : A -> result B) : result B :=
  match m with
  | Ok a => k a
  | Fail f => Fail f
  end.

Notation "x <- m ;; k" := (bind m (fun x => k))
  (at level 61, m at next level, right associativity).

(** ** JID values *)

Module Jid.

(** Modelled from the spec: class [Jid] is declared in another part of the
    repository (only its uses are in [xmpp_task.cpp]).  The spec describes
    it as an address with an optional resource suffix, the bare address
    being the one without the resource. *)
Record t := mk { node : string; domain : string; resource : string }.

(** [splitAt c s]: the parts of [s] before and after the first [c]. *)
Fixpoint splitAt (c : ascii) (s : string) : option (string * string) :=
  match s with
  | EmptyString => None
  | String a rest =>
      if Ascii.eqb a c then Some (EmptyString, rest)
      else match splitAt c rest with
           | Some (l, r) => Some (String a l, r)
           | None => None
           end
  end.

(** Modelled from the spec: the constructor [Jid(const QString &)].  The
    resource is what follows the first slash, the node what precedes the
    first at-sign of the rest; validation and normalisation are not
    modelled. *)
Definition fromString (s : string) : t :=
  let (rest, res) := match splitAt "/" s with
                     | Some (l, r) => (l, r)
                     | None => (s, "")
                     end in
  match splitAt "@" rest with
  | Some (n, d) => mk n d res
  | None => mk "" rest res
  end.

(** Modelled from the spec: [Jid::isEmpty].  An address is empty when it
    has no component. *)
Definition isEmpty (j : t) : bool :=
  String.eqb (node j) "" && String.eqb (domain j) ""
  && String.eqb (resource j) "".

(** Modelled from the spec: [a.compare(b, compareRes)], the exact-match
    comparison of the spec (all components), or its bare-address comparison
    (the resources are ignored) when [compareRes] is false.  The calls
    without a second argument in [xmpp_task.cpp] are the exact ones. *)
Definition compare (a b : t) (compareRes : bool) : bool :=
  String.eqb (node a) (node b) && String.eqb (domain a) (domain b)
  && (if compareRes then String.eqb (resource a) (resource b) else true).

(** The bare address of [j]: [j] without its resource. *)
Definition withoutResource (j : t) : t := mk (node j) (domain j) "".

End Jid.

(** ** XML elements *)

Module Dom.

(** [QDomElement] as far as the task layer looks at it: a tag name, an
    attribute list and child nodes.  [Text] stands for a node that is not an
    element; converted to an element it is the null element, whose tag name
    and attributes are empty. *)
Inductive Element :=
| Elem (tag : string) (attrs : list (string * string))
       (children : list Element)
| Text (s : string).

Definition tagName (e : Element) : string :=
  match e with Elem t _ _ => t | Text _ => "" end.

Definition attrs (e : Element) : list (string * string) :=
  match e with Elem _ a _ => a | Text _ => [] end.

Definition children (e : Element) : list Element :=
  match e with Elem _ _ c => c | Text _ => [] end.

Definition isElement (e : Element) : bool :=
  match e with Elem _ _ _ => true | Text _ => false end.

Fixpoint lookupAttr (name : string) (l : list (string * string)) : string :=
  match l with
  | [] => ""
  | (k, v) :: rest => if String.eqb k name then v else lookupAttr name rest
  end.

(** [e.attribute(name)]: the empty string when the attribute is absent. *)
Definition attribute (e : Element) (name : string) : string :=
  lookupAttr name (attrs e).

(** The first element with the given tag name in a list of nodes. *)
Fixpoint findIn (name : string) (l : list Element) : option Element :=
  match l with
  | [] => None
  | c :: rest =>
      if negb (isElement c) then findIn name rest
      else if String.eqb (tagName c) name then Some c
      else findIn name rest
  end.

(** Modelled from the spec: [findSubTag] lives in [xmpp_xmlcommon], which is
    outside [src/].  The spec says it locates a child of [e] with the given
    name; the result is [None] where the C++ sets [*found] to false. *)
Definition findSubTag (e : Element) (name : string) : option Element :=
  findIn name (children e).

(** Modelled from the spec: [queryNS] also lives in [xmpp_xmlcommon].  The
    spec calls its result the first query-namespace found in [x]: the
    [xmlns] attribute of the first [query] child, empty when there is none. *)
Definition queryNS (e : Element) : string :=
  match findSubTag e "query" with
  | Some q => attribute q "xmlns"
  | None => ""
  end.

End Dom.

(** ** Stanza errors ([xmpp_stanza.h]) *)

Module Stanza.
Module Error.

(** [enum ErrorType { Cancel = 1, Continue, Modify, Auth, Wait }] *)
Inductive ErrorType := Cancel | Continue | Modify | Auth | Wait.

Definition typeValue (t : ErrorType) : Z :=
  match t with
  | Cancel => 1 | Continue => 2 | Modify => 3 | Auth => 4 | Wait => 5
  end.

(** [enum ErrorCond { BadRequest = 1, ..., UnexpectedRequest }] *)
Inductive ErrorCond :=
| BadRequest | Conflict | FeatureNotImplemented | Forbidden | Gone
| InternalServerError | ItemNotFound | JidMalformed | NotAcceptable
| NotAllowed | NotAuthorized | PaymentRequired | RecipientUnavailable
| Redirect | RegistrationRequired | RemoteServerNotFound
| RemoteServerTimeout | ResourceConstraint | ServiceUnavailable
| SubscriptionRequired | UndefinedCondition | UnexpectedRequest.

Definition condValue (c : ErrorCond) : Z :=
  match c with
  | BadRequest => 1 | Conflict => 2 | FeatureNotImplemented => 3
  | Forbidden => 4 | Gone => 5 | InternalServerError => 6
  | ItemNotFound => 7 | JidMalformed => 8 | NotAcceptable => 9
  | NotAllowed => 10 | NotAuthorized => 11 | PaymentRequired => 12
  | RecipientUnavailable => 13 | Redirect => 14
  | RegistrationRequired => 15 | RemoteServerNotFound => 16
  | RemoteServerTimeout => 17 | ResourceConstraint => 18
  | ServiceUnavailable => 19 | SubscriptionRequired => 20
  | UndefinedCondition => 21 | UnexpectedRequest => 22
  end.

(** The fields of [class Error]; [type] and [condition] are plain [int]s in
    the header, [appSpec] is a possibly null element, [originalCode] is the
    private [int]. *)
Record t := mk {
  type : Z;
  condition : Z;
  text : string;
  appSpec : option Dom.Element;
  originalCode : Z
}.

(** Modelled from the spec: the constructor body is in [xmpp_stanza.cpp],
    outside [src/].  The header gives the defaults [Cancel],
    [UndefinedCondition], empty text and a null element; the spec says
    [originalCode] is kept only for a value constructed from a legacy code,
    so a value constructed from type and condition carries none (0). *)
Definition new (type condition : Z) (text : string)
  (appSpec : option Dom.Element) : t :=
  mk type condition text appSpec 0.

Definition default : t :=
  new (typeValue Cancel) (condValue UndefinedCondition) "" None.

(** One row of the legacy numeric-code table. *)
Record Entry := entry { e_cond : Z; e_type : Z; e_code : Z }.

Section LegacyTable.

(** The table itself is data of [xmpp_stanza.cpp] and is not under [src/];
    the operations are stated over any table. *)
Variable table : list Entry.

(** Modelled from the spec: the two lookups in the table, by type and
    condition and by code; the first matching row counts, and 0 stands for
    no mapping. *)
Fixpoint typeCondToCode (l : list Entry) (ty cond : Z) : Z :=
  match l with
  | [] => 0
  | en :: rest =>
      if (e_type en =? ty) && (e_cond en =? cond) then e_code en
      else typeCondToCode rest ty cond
  end.

(** Modelled from the spec: see [typeCondToCode]. *)
Fixpoint codeToTypeCond (l : list Entry) (c : Z) : option (Z * Z) :=
  match l with
  | [] => None
  | en :: rest =>
      if e_code en =? c then Some (e_type en, e_cond en)
      else codeToTypeCond rest c
  end.

(** Modelled from the spec: [Error::code] is defined outside [src/].  The
    spec: a deterministic lookup from (type, condition) to a legacy code
    through the fixed table, 0 when there is no mapping; a stored original
    code is preferred, so that a value made from a legacy code serialises
    back to that code. *)
Definition code (e : t) : Z :=
  if originalCode e =? 0
  then typeCondToCode table (type e) (condition e)
  else originalCode e.

(** Modelled from the spec: [Error::fromCode] is defined outside [src/].
    The spec: the inverse lookup; it returns whether the code is recognised
    and stores the original code.  The result pairs the returned flag with
    the updated object. *)
Definition fromCode (c : Z) (e : t) : bool * t :=
  match codeToTypeCond table c with
  | None => (false, e)
  | Some (ty, cond) => (true, mk ty cond (text e) (appSpec e) c)
  end.

End LegacyTable.

(** The rows the spec lists by name. *)
Definition listedTable : list Entry :=
  [ entry (condValue BadRequest) (typeValue Modify) 400;
    entry (condValue NotAuthorized) (typeValue Auth) 401;
    entry (condValue ItemNotFound) (typeValue Cancel) 404;
    entry (condValue Conflict) (typeValue Cancel) 409;
    entry (condValue InternalServerError) (typeValue Wait) 500;
    entry (condValue FeatureNotImplemented) (typeValue Cancel) 501;
    entry (condValue ServiceUnavailable) (typeValue Cancel) 503 ].

End Error.
End Stanza.

(** ** The client and the private data of a task *)

(** The transport behind [Client::stream()]. *)
Inductive Stream := ClientStream.

(** What [Task] asks of [Client] ([xmpp_client.h] is outside [src/]): our
    own address, the server address, the base namespace of the stream and
    the stream, which may be absent. *)
Record Client := mkClient {
  jid : Jid.t;
  host : Jid.t;
  streamBaseNS : string;
  stream : option Stream
}.

Module TaskPrivate.

(** [class Task::TaskPrivate]. *)
Record t := mk {
  id : string;
  success : bool;
  statusCode : Z;
  statusString : string;
  client : option Client;
  insig : bool;
  deleteme : bool;
  autoDelete : bool;
  done : bool;
  error : option Stanza.Error.t
}.

Definition set_id (v : string) (p : t) : t :=
  mk v (success p) (statusCode p) (statusString p) (client p) (insig p)
     (deleteme p) (autoDelete p) (done p) (error p).
Definition set_success (v : bool) (p : t) : t :=
  mk (id p) v (statusCode p) (statusString p) (client p) (insig p)
     (deleteme p) (autoDelete p) (done p) (error p).
Definition set_statusCode (v : Z) (p : t) : t :=
  mk (id p) (success p) v (statusString p) (client p) (insig p)
     (deleteme p) (autoDelete p) (done p) (error p).
Definition set_statusString (v : string) (p : t) : t :=
  mk (id p) (success p) (statusCode p) v (client p) (insig p)
     (deleteme p) (autoDelete p) (done p) (error p).
Definition set_client (v : option Client) (p : t) : t :=
  mk (id p) (success p) (statusCode p) (statusString p) v (insig p)
     (deleteme p) (autoDelete p) (done p) (error p).
Definition set_insig (v : bool) (p : t) : t :=
  mk (id p) (success p) (statusCode p) (statusString p) (client p) v
     (deleteme p) (autoDelete p) (done p) (error p).
Definition set_deleteme (v : bool) (p : t) : t :=
  mk (id p) (success p) (statusCode p) (statusString p) (client p) (insig p)
     v (autoDelete p) (done p) (error p).
Definition set_autoDelete (v : bool) (p : t) : t :=
  mk (id p) (success p) (statusCode p) (statusString p) (client p) (insig p)
     (deleteme p) v (done p) (error p).
Definition set_done (v : bool) (p : t) : t :=
  mk (id p) (success p) (statusCode p) (statusString p) (client p) (insig p)
     (deleteme p) (autoDelete p) v (error p).
Definition set_error (v : option Stanza.Error.t) (p : t) : t :=
  mk (id p) (success p) (statusCode p) (statusString p) (client p) (insig p)
     (deleteme p) (autoDelete p) (done p) v.

End TaskPrivate.

(** ** Effects *)

(** What a task does to the outside, in the order it happens. *)
Inductive Event :=
| Warning (msg : string)  (* [qWarning] *)
| OnGo                    (* the virtual send hook [onGo()] was entered *)
| Finished                (* the signal [finished()] was emitted *)
| Destroyed.              (* the task object was destroyed *)

(** Calls handed to the Qt event loop, to run on a later turn. *)
Inductive Deferred :=
| DeferredDone     (* [QTimer::singleShot(0, this, SLOT(done()))] *)
| DeferredDelete.  (* [deleteLater()] *)

Record World := mkWorld {
  d : TaskPrivate.t;
  log : list Event;
  queue : list Deferred
}.

Definition upd (f : TaskPrivate.t -> TaskPrivate.t) (w : World) : World :=
  mkWorld (f (d w)) (log w) (queue w).
Definition emit (ev : Event) (w : World) : World :=
  mkWorld (d w) (log w ++ [ev]) (queue w).
Definition post (c : Deferred) (w : World) : World :=
  mkWorld (d w) (log w) (queue w ++ [c]).
Definition setQueue (q : list Deferred) (w : World) : World :=
  mkWorld (d w) (log w) q.

Definition isDestroyed (ev : Event) : bool :=
  match ev with Destroyed => true | _ => false end.
Definition isFinished (ev : Event) : bool :=
  match ev with Finished => true | _ => false end.
Definition isOnGo (ev : Event) : bool :=
  match ev with OnGo => true | _ => false end.

(** How often the task was destroyed, and how often [finished()] fired. *)
Definition destructions (w : World) : nat :=
  List.length (filter isDestroyed (log w)).
Definition notifications (w : World) : nat :=
  List.length (filter isFinished (log w)).
Definition destroyed (w : World) : bool := existsb isDestroyed (log w).

(** The three completing calls of a task, and the calls a slot connected to
    [finished()] (or any other caller) can make on it. *)
Inductive Completion :=
| SetSuccess (code : Z) (str : string)
| SetErrorXml (e : Dom.Element)
| SetError (code : Z) (str : string).

Inductive Call :=
| Complete (c : Completion)
| SafeDelete
| Go (autoDelete : bool)
| ClientDisconnected.

(** Collaborators whose code is outside [src/], taken as parameters. *)
Record Externals := mkExternals {
  (* [QObject::tr] *)
  tr : string -> string;
  (* [getErrorFromElement(e, baseNS, &code, &str)] of [xmpp_xmlcommon]: from
     the current values behind the two pointers to the values afterwards *)
  getErrorFromElement : Dom.Element -> string -> Z * string -> Z * string;
  (* [Stanza::Error::fromXml(e, baseNS)]: the returned flag and the object
     afterwards *)
  Error_fromXml :
    Dom.Element -> string -> Stanza.Error.t -> bool * Stanza.Error.t;
  (* the slots connected to [finished()]: the calls they make on this task,
     given the private data they can read at the emission *)
  finishedSlots : TaskPrivate.t -> list Call
}.

(** ** class Task ([xmpp_task.h], [xmpp_task.cpp]) *)

Module Task.

Module P := TaskPrivate.

(** [enum { ErrDisc };]: the first enumerator of an unnamed enumeration. *)
Definition ErrDisc : Z := 0.

(** The default arguments of [setSuccess(int code=0, const QString &str="")]
    and of [setError(int code=0, const QString &str="")]. *)
Definition defaultCode : Z := 0.
Definition defaultStr : string := "".

(** [Task::init]: [statusCode] is not assigned, so it holds whatever the
    fresh allocation held ([uninit]); [client] and [id] are assigned by the
    constructors. *)
Definition init (uninit : Z) : TaskPrivate.t :=
  P.mk "" false uninit "" None false false false false None.

(** [Task::Task(Task *parent)], with the client of the parent and the
    identifier [genUniqueId()] produced. *)
Definition newChild (uninit : Z) (parentClient : Client) (uniqueId : string)
  : World :=
  mkWorld (P.set_id uniqueId (P.set_client (Some parentClient) (init uninit)))
          [] [].

(** [Task::Task(Client *parent, bool)]. *)
Definition newRoot (uninit : Z) (parent : option Client) : World :=
  mkWorld (P.set_client parent (init uninit)) [] [].

(** Modelled from the spec: [SafeDelete::deleteSingle] is declared in
    [safedelete.h], outside [src/].  The spec says the task is destroyed
    at this call; the destruction is recorded in the log. *)
Definition deleteSingle (w : World) : World := emit Destroyed w.

(** [Task::onGo]: the body of the base class is empty; the log records that
    the hook was entered. *)
Definition onGo (w : World) : World := emit OnGo w.

(** The message of [qWarning] in [go]. *)
Definition brokenConnectionWarning : Event :=
  Warning "Task::go(): attempted to send a task over the broken connection.".

(** [Task::go] *)
Definition go (autoDel : bool) (w : World) : World :=
  let w := upd (P.set_autoDelete autoDel) w in
  let broken :=
    match P.client (d w) with
    | None => true
    | Some cl => match stream cl with None => true | Some _ => false end
    end in
  if broken then
    let w := emit brokenConnectionWarning w in
    if autoDel then post DeferredDelete w else w
  else onGo w.

(** The task has a client and the client has a stream: the negation of the
    test [!client() || !&client()->stream()] of [go]. *)
Definition hasTransport (p : TaskPrivate.t) : bool :=
  match P.client p with
  | Some cl => match stream cl with Some _ => true | None => false end
  | None => false
  end.

(** [Task::safeDelete] *)
Definition safeDelete (w : World) : World :=
  if P.deleteme (d w) then w
  else
    let w := upd (P.set_deleteme true) w in
    if negb (P.insig (d w)) then deleteSingle w else w.

Section WithExternals.

Variable X : Externals.

(** [Task::onDisconnect] *)
Definition onDisconnect (w : World) : World :=
  if negb (P.done (d w)) then
    let w := upd (P.set_success false) w in
    let w := upd (P.set_statusCode ErrDisc) w in
    let w := upd (P.set_statusString (tr X "Disconnected")) w in
    post DeferredDone w
  else w.

(** [Task::clientDisconnected] *)
Definition clientDisconnected (w : World) : World := onDisconnect w.

(** [Task::getStanzaErrorFromElement] *)
Definition getStanzaErrorFromElement (e : Dom.Element) (baseNs : string)
  : option Stanza.Error.t :=
  match Dom.findSubTag e "error" with
  | None => None
  | Some tag =>
      let err := Stanza.Error.default in
      Some (snd (Error_fromXml X tag baseNs err))
  end.

(** [Task::errorType], [Task::errorCondition] *)
Definition errorType (p : TaskPrivate.t) : Z :=
  match P.error p with
  | Some e => Stanza.Error.type e
  | None => 0
  end.

Definition errorCondition (p : TaskPrivate.t) : Z :=
  match P.error p with
  | Some e => Stanza.Error.condition e
  | None => 0
  end.

(** The methods that end in a call of the slot [done()] take that slot as
    [doneSlot]; the knot is tied in [done] below. *)
Section Methods.

Variable doneSlot : World -> result World.

(** [Task::setSuccess] *)
Definition setSuccess (code : Z) (str : string) (w : World) : result World :=
  if negb (P.done (d w)) then
    let w := upd (P.set_success true) w in
    let w := upd (P.set_statusCode code) w in
    let w := upd (P.set_statusString str) w in
    doneSlot w
  else Ok w.

(** [Task::setError(const QDomElement &)] *)
Definition setErrorXml (e : Dom.Element) (w : World) : result World :=
  if negb (P.done (d w)) then
    let w := upd (P.set_success false) w in
    match P.client (d w) with
    | None => Fail NullClient
    | Some cl =>
        let cs := getErrorFromElement X e (streamBaseNS cl)
                    (P.statusCode (d w), P.statusString (d w)) in
        let w := upd (P.set_statusCode (fst cs)) w in
        let w := upd (P.set_statusString (snd cs)) w in
        let w := upd (P.set_error
                        (getStanzaErrorFromElement e (streamBaseNS cl))) w in
        doneSlot w
    end
  else Ok w.

(** [Task::setError(int, const QString &)] *)
Definition setError (code : Z) (str : string) (w : World) : result World :=
  if negb (P.done (d w)) then
    let w := upd (P.set_success false) w in
    let w := upd (P.set_statusCode code) w in
    let w := upd (P.set_statusString str) w in
    doneSlot w
  else Ok w.

Definition complete (c : Completion) (w : World) : result World :=
  match c with
  | SetSuccess code str => setSuccess code str w
  | SetErrorXml e => setErrorXml e w
  | SetError code str => setError code str w
  end.

Definition call (c : Call) (w : World) : result World :=
  match c with
  | Complete c => complete c w
  | SafeDelete => Ok (safeDelete w)
  | Go autoDel => Ok (go autoDel w)
  | ClientDisconnected => Ok (clientDisconnected w)
  end.

(** A sequence of calls, one after the other. *)
Fixpoint calls (l : list Call) (w : World) : result World :=
  match l with
  | [] => Ok w
  | c :: rest => w' <- call c w ;; calls rest w'
  end.

(** The emission of [finished()]: the connected slots run before the
    emitting statement returns. *)
Definition finished (w : World) : result World :=
  let w := emit Finished w in
  calls (finishedSlots X (d w)) w.

End Methods.

(** [Task::done()], the private slot.  [fuel] bounds how deeply emissions
    of [finished()] may nest; a call that returns at the guard needs none. *)
Fixpoint done (fuel : nat) (w : World) : result World :=
  if P.done (d w) || P.insig (d w) then Ok w
  else
    match fuel with
    | O => Fail NotifyDepth
    | S fuel' =>
        let w := upd (P.set_done true) w in
        let w := if P.deleteme (d w) || P.autoDelete (d w)
                 then upd (P.set_deleteme true) w else w in
        let w := upd (P.set_insig true) w in
        w <- finished (done fuel') w ;;
        let w := upd (P.set_insig false) w in
        if P.deleteme (d w) then Ok (deleteSingle w) else Ok w
    end.

(** The two halves of [done()] around the emission: the state in which
    [finished()] is emitted, and what is left to do once it has returned. *)
Definition entering (w : World) : World :=
  let w := upd (P.set_done true) w in
  let w := if P.deleteme (d w) || P.autoDelete (d w)
           then upd (P.set_deleteme true) w else w in
  upd (P.set_insig true) w.

Definition leaving (w : World) : World :=
  let w := upd (P.set_insig false) w in
  if P.deleteme (d w) then deleteSingle w else w.

(** The event loop: a deferred call whose receiver is gone is dropped. *)
Definition dispatch (fuel : nat) (c : Deferred) (w : World) : result World :=
  if destroyed w then Ok w
  else
    match c with
    | DeferredDone => done fuel w
    | DeferredDelete => Ok (emit Destroyed w)
    end.

Fixpoint runDeferred (fuel : nat) (l : list Deferred) (w : World)
  : result World :=
  match l with
  | [] => Ok w
  | c :: rest => w' <- dispatch fuel c w ;; runDeferred fuel rest w'
  end.

(** One turn of the event loop runs what was queued before it started. *)
Definition loopTurn (fuel : nat) (w : World) : result World :=
  runDeferred fuel (queue w) (setQueue [] w).

(** The states a task is in between two calls from outside: it is made by
    one of the constructors, then methods are called on it and the event
    loop turns. *)
Inductive reachable : World -> Prop :=
| reach_child (uninit : Z) (cl : Client) (uid : string) :
    reachable (newChild uninit cl uid)
| reach_root (uninit : Z) (c : option Client) :
    reachable (newRoot uninit c)
| reach_call (n : nat) (c : Call) (w w' : World) :
    reachable w -> call (done n) c w = Ok w' -> reachable w'
| reach_turn (n : nat) (w w' : World) :
    reachable w -> loopTurn n w = Ok w' -> reachable w'.

(** [Task::iqVerify] *)
Definition iqVerify (p : TaskPrivate.t) (x : Dom.Element) (to : Jid.t)
  (id xmlns : string) : result bool :=
  if negb (String.eqb (Dom.tagName x) "iq") then Ok false
  else
    let from := Jid.fromString (Dom.attribute x "from") in
    match P.client p with
    | None => Fail NullClient
    | Some cl =>
        let local := jid cl in
        let server := host cl in
        let idAndNs :=
          if negb (String.eqb id "")
             && negb (String.eqb (Dom.attribute x "id") id) then Ok false
          else if negb (String.eqb xmlns "")
                  && negb (String.eqb (Dom.queryNS x) xmlns) then Ok false
          else Ok true in
        (* empty 'from' ? *)
        if Jid.isEmpty from then
          if negb (Jid.isEmpty to) && negb (Jid.compare to server true)
          then Ok false else idAndNs
        (* from ourself? *)
        else if Jid.compare from local false
                || Jid.compare from (Jid.fromString (Jid.domain local)) false
        then
          if negb (Jid.isEmpty to) && negb (Jid.compare to local false)
             && negb (Jid.compare to server true)
          then Ok false else idAndNs
        (* from anywhere else? *)
        else
          if negb (Jid.compare from to true) then Ok false else idAndNs
    end.

End WithExternals.

(** [Task::success], [Task::statusCode], [Task::statusString] *)
Definition success (w : World) : bool := P.success (d w).
Definition statusCode (w : World) : Z := P.statusCode (d w).
Definition statusString (w : World) : string := P.statusString (d w).

(** What a caller can observe of the result of a task. *)
Definition outcome (w : World)
  : bool * Z * string * option Stanza.Error.t :=
  (P.success (d w), P.statusCode (d w), P.statusString (d w), P.error (d w)).

(** What the first of a series of completing calls is to leave behind. *)
Definition firstOutcome (X : Externals) (c : Completion) (w : World)
  : bool * Z * string * option Stanza.Error.t :=
  match c with
  | SetSuccess code str => (true, code, str, P.error (d w))
  | SetError code str => (false, code, str, P.error (d w))
  | SetErrorXml e =>
      let ns := match P.client (d w) with
                | Some cl => streamBaseNS cl
                | None => ""
                end in
      let cs := getErrorFromElement X e ns
                  (P.statusCode (d w), P.statusString (d w)) in
      (false, fst cs, snd cs, getStanzaErrorFromElement X e ns)
  end.

(** *** Predicates on states *)

(** [inside w w']: going from [w] to [w'] leaves the task in its
    notification, with the same result, and neither notifies nor destroys. *)
Record inside (w w' : World) : Prop := mkInside {
  in_done : P.done (d w') = true;
  in_insig : P.insig (d w') = true;
  in_outcome : outcome w' = outcome w;
  in_client : P.client (d w') = P.client (d w);
  in_notifications : notifications w' = notifications w;
  in_destructions : destructions w' = destructions w;
  in_deleteme : P.deleteme (d w) = true -> P.deleteme (d w') = true
}.

(** Between calls a task is not notifying, and it carries the deletion mark
    only if it has been destroyed. *)
Definition settled (w : World) : Prop :=
  P.insig (d w) = false
  /\ (P.deleteme (d w) = true -> destroyed w = true).

(** *** Dispatch through the object tree *)

(** The children of a [QObject]: an object of another class, or a task.
    A task either keeps the base [Task::take] or reimplements the virtual
    method ([reimpl], the verdict of the reimplementation on an element). *)
Inductive QObject :=
| Other (className : string)
| TaskObj (name : string) (reimpl : option (Dom.Element -> bool))
          (kids : list QObject).

(** [obj->inherits("XMPP::Task")] *)
Definition inheritsTask (o : QObject) : bool :=
  match o with Other _ => false | TaskObj _ _ _ => true end.

Section Take.

Variable x : Dom.Element.

(** The virtual call [t->take(x)]: the verdict, and the names of the tasks
    whose [take] was entered, in order.  A task with the base method runs
    the loop of [Task::take] over its children. *)
Fixpoint vtake (o : QObject) : bool * list string :=
  match o with
  | Other _ => (false, [])
  | TaskObj name (Some f) _ => (f x, [name])
  | TaskObj name None kids =>
      let r :=
        (fix scan (p : list QObject) : bool * list string :=
           match p with
           | [] => (false, [])
           | obj :: rest =>
               if negb (inheritsTask obj) then scan rest
               else
                 let r := vtake obj in
                 if fst r then (true, snd r)
                 else let r' := scan rest in (fst r', (snd r ++ snd r')%list)
           end) kids in
      (fst r, name :: snd r)
  end.

(** The loop of [Task::take] over [children()]. *)
Fixpoint scan (p : list QObject) : bool * list string :=
  match p with
  | [] => (false, [])
  | obj :: rest =>
      if negb (inheritsTask obj) then scan rest
      else
        let r := vtake obj in
        if fst r then (true, snd r)
        else let r' := scan rest in (fst r', (snd r ++ snd r')%list)
  end.

(** The base [Task::take] of a task with the given children. *)
Definition take (name : string) (kids : list QObject) : bool * list string :=
  let r := scan kids in (fst r, name :: snd r).

(** The visits recorded for a list of children that were all passed: those
    of the tasks among them, in order. *)
Definition visits (l : list QObject) : list string :=
  List.concat (map (fun o => snd (vtake o)) (filter inheritsTask l)).

(** A child lets the element pass when it is skipped or its [take] returns
    false. *)
Definition declines (o : QObject) : Prop :=
  inheritsTask o = false \/ fst (vtake o) = false.

End Take.

End Task.

(** ** Concrete data used to run the model *)

Module Samples.

Definition local : Jid.t := Jid.fromString "me@host/r1".
Definition server : Jid.t := Jid.fromString "host".

Definition connected : Client :=
  mkClient local server "jabber:client" (Some ClientStream).
Definition streamless : Client :=
  mkClient local server "jabber:client" None.

(** Slots that ask for deletion twice and try to complete the task again. *)
Definition greedySlots (p : TaskPrivate.t) : list Call :=
  [SafeDelete; Complete (SetSuccess 7 "again"); SafeDelete;
   Complete (SetError 9 "late")].

(** Stand-ins for the collaborators: [tr] without a translator, a coarse
    pair read off the presence of an error child, and a parser that reads
    the type attribute only. *)
Definition coarse (e : Dom.Element) (ns : string) (cs : Z * string)
  : Z * string :=
  match Dom.findSubTag e "error" with
  | None => cs
  | Some _ => (503, "Service unavailable")
  end.

Definition parse (e : Dom.Element) (ns : string) (err : Stanza.Error.t)
  : bool * Stanza.Error.t :=
  if String.eqb (Dom.attribute e "type") "auth"
  then (true, Stanza.Error.new 4 11 "" None)
  else (true, err).

Definition externals (slots : TaskPrivate.t -> list Call) : Externals :=
  mkExternals (fun s => s) coarse parse slots.

Definition quiet : Externals := externals (fun _ => []).
Definition greedy : Externals := externals greedySlots.

Definition fresh : World := Task.newChild 12345 connected "a1".

Definition errorReply : Dom.Element :=
  Dom.Elem "iq" [("type", "error"); ("id", "a1")]
    [Dom.Elem "error" [("type", "auth")] []].
Definition selfReply : Dom.Element :=
  Dom.Elem "iq" [("from", "me@host/r1"); ("id", "a1")] [].
Definition serverReply : Dom.Element :=
  Dom.Elem "iq" [("from", "host"); ("id", "a1")] [].
Definition plainReply : Dom.Element :=
  Dom.Elem "iq" [("type", "result"); ("id", "a1")] [].

End Samples.

(** ** Runs of a task and traversals of the object tree *)

Module Runs.

Import Task.

Section WithExternals.

Variable X : Externals.

(** One step seen from outside: a method is called on the task, or the
    event loop turns. *)
Inductive step : World -> World -> Prop :=
| step_call (n : nat) (c : Call) (w w' : World) :
    call X (done X n) c w = Ok w' -> step w w'
| step_turn (n : nat) (w w' : World) :
    loopTurn X n w = Ok w' -> step w w'.

(** Any number of steps. *)
Inductive evolves : World -> World -> Prop :=
| evolves_refl (w : World) : evolves w w
| evolves_step (w1 w2 w3 : World) :
    evolves w1 w2 -> step w2 w3 -> evolves w1 w3.

End WithExternals.

Definition isSafeDelete (c : Call) : bool :=
  match c with SafeDelete => true | _ => false end.

(** Events that neither notify nor destroy. *)
Definition isNeutral (ev : Event) : bool :=
  negb (isFinished ev) && negb (isDestroyed ev).

Section Tree.

Variable x : Dom.Element.



End Tree.

(** Between calls: the task is not notifying, [finished()] has fired once
    if the task is done and never otherwise, and a stored error goes with
    a failure. *)
Definition accounted (w : World) : Prop :=
  P.insig (d w) = false
  /\ notifications w = (if P.done (d w) then 1 else 0)%nat
  /\ (P.error (d w) <> None -> P.success (d w) = false).

(** A pending task reports neither success nor a stored error. *)
Definition pendingClean (w : World) : Prop :=
  P.done (d w) = false ->
  P.success (d w) = false /\ P.error (d w) = None.

(** What identifies a task: its identifier and its client. *)
Definition ident (w : World) : string * option Client :=
  (P.id (d w), P.client (d w)).

(** The values of the two enumerations of [Stanza::Error]. *)
Definition isTypeValue (z : Z) : Prop :=
  exists t, z = Stanza.Error.typeValue t.
Definition isCondValue (z : Z) : Prop :=
  exists c, z = Stanza.Error.condValue c.

End Runs.

(** ** More concrete data *)

Module MoreSamples.

Import Samples.

(** The fresh task after an error reply, with the slots of [greedy]. *)
Definition afterReply : World :=
  match Task.call greedy (Task.done greedy 1)
          (Complete (SetErrorXml errorReply)) fresh with
  | Ok w => w
  | Fail _ => fresh
  end.

(** The same account on another resource. *)
Definition connectedElsewhere : Client :=
  mkClient (Jid.fromString "me@host/r2") server "jabber:client"
    (Some ClientStream).

Definition freshElsewhere : World :=
  Task.newChild 0 connectedElsewhere "b1".

(** A root task whose client has no stream. *)
Definition offline : World := Task.newRoot 0 (Some streamless).

End MoreSamples.

(** * Properties *)

Import Task.

(** ** The effect log *)

Lemma notifications_emit (ev : Event) (w : World) :
  notifications (emit ev w)
  = (notifications w + (if isFinished ev then 1 else 0))%nat.
Proof.
  unfold notifications, emit; simpl.
  rewrite filter_app, length_app; simpl.
  destruct (isFinished ev); reflexivity.
Qed.

Lemma destructions_emit (ev : Event) (w : World) :
  destructions (emit ev w)
  = (destructions w + (if isDestroyed ev then 1 else 0))%nat.
Proof.
  unfold destructions, emit; simpl.
  rewrite filter_app, length_app; simpl.
  destruct (isDestroyed ev); reflexivity.
Qed.

(** Counting events of a log that was extended by concrete events. *)
Ltac log_count :=
  unfold notifications, destructions, deleteSingle, onGo, emit, post, upd;
  simpl; rewrite ?filter_app, ?length_app; simpl; try lia.

(** ** Calls made while the notification runs *)

Lemma inside_refl (w : World) :
  P.done (d w) = true -> P.insig (d w) = true -> inside w w.
Proof. intros Hd Hi; constructor; auto. Qed.

Lemma inside_trans (w1 w2 w3 : World) :
  inside w1 w2 -> inside w2 w3 -> inside w1 w3.
Proof.
  intros [] []; constructor; auto; congruence.
Qed.

Section TaskProperties.

Variable X : Externals.

(** A completing call on a task that is already done returns at once. *)
Lemma complete_when_done (dn : World -> result World) (c : Completion)
  (w : World) :
  P.done (d w) = true -> complete X dn c w = Ok w.
Proof.
  intros Hd; destruct c; simpl;
    unfold setSuccess, setErrorXml, setError; rewrite Hd; reflexivity.
Qed.

Lemma call_inside (dn : World -> result World) (c : Call) (w : World) :
  P.done (d w) = true -> P.insig (d w) = true ->
  exists w', call X dn c w = Ok w' /\ inside w w'.
Proof.
  intros Hd Hi; destruct c as [c | | b |]; simpl.
  - exists w; split; [apply complete_when_done; assumption |].
    apply inside_refl; assumption.
  - eexists; split; [reflexivity |].
    unfold safeDelete. destruct (P.deleteme (d w)) eqn:Hm.
    + apply inside_refl; assumption.
    + simpl. rewrite Hi; simpl. constructor; simpl; auto.
  - eexists; split; [reflexivity |].
    unfold go; simpl.
    destruct (P.client (d w)) as [cl |]; [destruct (stream cl) |];
      try destruct b; constructor; simpl; auto; log_count.
  - eexists; split; [reflexivity |].
    unfold clientDisconnected, onDisconnect; rewrite Hd; simpl.
    apply inside_refl; assumption.
Qed.

Lemma calls_inside (dn : World -> result World) (l : list Call) :
  forall w, P.done (d w) = true -> P.insig (d w) = true ->
  exists w', calls X dn l w = Ok w' /\ inside w w'.
Proof.
  induction l as [| c l IH]; intros w Hd Hi; simpl.
  - exists w; split; [reflexivity | apply inside_refl; assumption].
  - destruct (call_inside dn c w Hd Hi) as (w1 & E1 & I1).
    rewrite E1; simpl.
    destruct (IH w1 (in_done _ _ I1) (in_insig _ _ I1)) as (w2 & E2 & I2).
    exists w2; split; [assumption | eapply inside_trans; eassumption].
Qed.

Lemma safeDelete_marks (w : World) : P.deleteme (d (safeDelete w)) = true.
Proof.
  unfold safeDelete. destruct (P.deleteme (d w)) eqn:Hm; [assumption |].
  simpl. destruct (negb (P.insig (d w))); reflexivity.
Qed.

(** Once a slot has called [safeDelete()], the mark stays until the slots
    have returned. *)
Lemma calls_inside_marked (dn : World -> result World) (l : list Call) :
  forall w w', P.done (d w) = true -> P.insig (d w) = true ->
  In SafeDelete l -> calls X dn l w = Ok w' -> P.deleteme (d w') = true.
Proof.
  induction l as [| c l IH]; intros w w' Hd Hi Hin E; [destruct Hin |].
  simpl in E.
  destruct (call_inside dn c w Hd Hi) as (w1 & E1 & I1).
  rewrite E1 in E; simpl in E.
  destruct Hin as [-> | Hin].
  - simpl in E1. injection E1 as <-.
    destruct (calls_inside dn l _ (in_done _ _ I1) (in_insig _ _ I1))
      as (w2 & E2 & I2).
    rewrite E2 in E; injection E as <-.
    apply (in_deleteme _ _ I2), safeDelete_marks.
  - exact (IH w1 w' (in_done _ _ I1) (in_insig _ _ I1) Hin E).
Qed.

(** [done()] on a task that is neither done nor notifying. *)
Lemma done_eq (n : nat) (w : World) :
  P.done (d w) = false -> P.insig (d w) = false ->
  done X (S n) w
  = (w' <- finished X (done X n) (entering w) ;; Ok (leaving w')).
Proof.
  intros Hd Hi. unfold entering, leaving. simpl. rewrite Hd, Hi; simpl.
  match goal with
  | |- context [finished ?a ?b ?c] => destruct (finished a b c) as [wh | f]
  end; simpl; [| reflexivity].
  destruct (P.deleteme (d wh)); reflexivity.
Qed.

Lemma entering_flags (w : World) :
  P.done (d (entering w)) = true /\ P.insig (d (entering w)) = true.
Proof.
  unfold entering; simpl.
  destruct (P.deleteme (d w) || P.autoDelete (d w)); simpl; auto.
Qed.

(** The emission always returns: one level of nesting is enough. *)
Lemma finished_inside (dn : World -> result World) (w : World) :
  P.done (d w) = true -> P.insig (d w) = true ->
  exists wh, finished X dn w = Ok wh /\ inside (emit Finished w) wh.
Proof.
  intros Hd Hi. unfold finished.
  apply calls_inside; assumption.
Qed.

Lemma done_runs (n : nat) (w : World) :
  P.done (d w) = false -> P.insig (d w) = false ->
  exists wh,
    finished X (done X n) (entering w) = Ok wh
    /\ inside (emit Finished (entering w)) wh
    /\ done X (S n) w = Ok (leaving wh).
Proof.
  intros Hd Hi.
  destruct (entering_flags w) as [Ed Ei].
  destruct (finished_inside (done X n) (entering w) Ed Ei) as (wh & E & I).
  exists wh; split; [assumption | split; [assumption |]].
  rewrite (done_eq n w Hd Hi), E; reflexivity.
Qed.

Lemma leaving_frame (w : World) :
  outcome (leaving w) = outcome w
  /\ P.done (d (leaving w)) = P.done (d w)
  /\ P.insig (d (leaving w)) = false
  /\ P.client (d (leaving w)) = P.client (d w)
  /\ P.deleteme (d (leaving w)) = P.deleteme (d w)
  /\ notifications (leaving w) = notifications w
  /\ destructions (leaving w)
     = (destructions w + (if P.deleteme (d w) then 1 else 0))%nat.
Proof.
  unfold leaving; simpl.
  destruct (P.deleteme (d w)) eqn:Hm; simpl; rewrite ?Hm;
    repeat split; log_count.
Qed.

Lemma entering_frame (w : World) :
  outcome (entering w) = outcome w
  /\ P.client (d (entering w)) = P.client (d w)
  /\ P.deleteme (d (entering w)) = P.deleteme (d w) || P.autoDelete (d w)
  /\ log (entering w) = log w
  /\ queue (entering w) = queue w.
Proof.
  unfold entering; simpl.
  destruct (P.deleteme (d w)) eqn:Hm;
    destruct (P.autoDelete (d w)) eqn:Ha; simpl; auto.
Qed.

(** [done()] on a task that is neither done nor notifying returns, keeps
    the recorded result, sets the terminal flag and notifies once. *)
Lemma done_completes (n : nat) (w : World) :
  P.done (d w) = false -> P.insig (d w) = false ->
  exists w1,
    done X (S n) w = Ok w1
    /\ outcome w1 = outcome w
    /\ P.done (d w1) = true
    /\ P.insig (d w1) = false
    /\ P.client (d w1) = P.client (d w)
    /\ notifications w1 = S (notifications w)
    /\ destructions w1
       = (destructions w + (if P.deleteme (d w1) then 1 else 0))%nat.
Proof.
  intros Hd Hi.
  destruct (done_runs n w Hd Hi) as (wh & _ & I & E).
  destruct I as [Id Ii Io Ic In_ Ids _].
  destruct (leaving_frame wh) as (Lo & Ld & Li & Lc & Lm & Ln & Lds).
  destruct (entering_frame w) as (Eo & Ec & _ & El & _).
  exists (leaving wh); split; [assumption |].
  repeat split.
  - rewrite Lo, Io. unfold outcome in *; simpl. exact Eo.
  - congruence.
  - assumption.
  - rewrite Lc, Ic; simpl; exact Ec.
  - rewrite Ln, In_, notifications_emit; simpl.
    unfold notifications; rewrite El; lia.
  - rewrite Lds, Lm, Ids, destructions_emit; simpl.
    unfold destructions; rewrite El; lia.
Qed.

(** *** Destruction *)

Lemma destroyed_destructions (w : World) :
  destroyed w = false <-> destructions w = 0%nat.
Proof.
  unfold destroyed, destructions.
  induction (log w) as [| ev l IH]; simpl; [tauto |].
  destruct (isDestroyed ev); simpl; [split; discriminate | exact IH].
Qed.

Lemma destroyed_emit (w : World) : destroyed (emit Destroyed w) = true.
Proof.
  unfold destroyed, emit; simpl. rewrite existsb_app; simpl.
  apply orb_true_r.
Qed.

Lemma destroyed_mono (ev : Event) (w : World) :
  destroyed w = true -> destroyed (emit ev w) = true.
Proof.
  unfold destroyed, emit; simpl. rewrite existsb_app. intros ->. reflexivity.
Qed.

Lemma settled_done (n : nat) (w w' : World) :
  settled w -> done X n w = Ok w' -> settled w'.
Proof.
  intros [Hi Hm] E.
  destruct (P.done (d w)) eqn:Hd.
  - destruct n; simpl in E; rewrite Hd in E; simpl in E;
      injection E as <-; split; assumption.
  - destruct n as [| n]; [simpl in E; rewrite Hd, Hi in E; discriminate |].
    destruct (done_runs n w Hd Hi) as (wh & _ & _ & E').
    rewrite E' in E; injection E as <-.
    unfold settled, leaving; simpl.
    destruct (P.deleteme (d wh)) eqn:Hw; simpl; rewrite ?Hw; split; auto.
    + intros _. apply destroyed_emit.
    + discriminate.
Qed.

Lemma settled_call (n : nat) (c : Call) (w w' : World) :
  settled w -> call X (done X n) c w = Ok w' -> settled w'.
Proof.
  intros S E. pose proof S as [Hi Hm].
  destruct c as [c | | b |]; simpl in E.
  - destruct (P.done (d w)) eqn:Hd.
    + rewrite (complete_when_done _ c w Hd) in E; injection E as <-.
      exact S.
    + destruct c as [code str | e | code str];
        unfold complete, setSuccess, setErrorXml, setError in E;
        rewrite Hd in E; cbn [negb] in E;
        try (cbn [upd d P.client P.set_success] in E;
             destruct (P.client (d w)); [| discriminate]);
        (eapply settled_done; [| exact E]); split; simpl; assumption.
  - injection E as <-. unfold safeDelete.
    destruct (P.deleteme (d w)) eqn:Hw; [exact S |].
    simpl. rewrite Hi; simpl. split; [assumption |].
    intros _; apply destroyed_emit.
  - injection E as <-. unfold go; simpl.
    destruct (P.client (d w)) as [cl |]; [destruct (stream cl) |];
      try destruct b; split; simpl; auto;
      intros H; apply Hm in H;
      repeat (apply destroyed_mono || unfold post, onGo); simpl; auto.
  - injection E as <-. unfold clientDisconnected, onDisconnect.
    destruct (P.done (d w)); simpl; [exact S |].
    split; simpl; assumption.
Qed.

Lemma settled_runDeferred (n : nat) (l : list Deferred) :
  forall w w', settled w -> runDeferred X n l w = Ok w' -> settled w'.
Proof.
  induction l as [| c l IH]; intros w w' S E; simpl in E.
  - injection E as <-; exact S.
  - destruct (dispatch X n c w) as [w1 | f] eqn:E1; [| discriminate].
    simpl in E. apply (IH w1 w'); [| exact E].
    unfold dispatch in E1. destruct (destroyed w) eqn:Hx.
    + injection E1 as <-; exact S.
    + destruct c.
      * eapply settled_done; eassumption.
      * injection E1 as <-. destruct S as [Hi _].
        split; [exact Hi | intros _; apply destroyed_emit].
Qed.

Lemma reachable_settled (w : World) : reachable X w -> settled w.
Proof.
  induction 1 as [u cl uid | u c | n c w w' _ IH E | n w w' _ IH E].
  - split; [reflexivity | discriminate].
  - split; [reflexivity | discriminate].
  - eapply settled_call; eassumption.
  - unfold loopTurn in E. eapply settled_runDeferred; [| exact E].
    destruct IH as [Hi Hm]. split; assumption.
Qed.

Lemma safeDelete_iter_marked (k : nat) (w : World) :
  P.deleteme (d w) = true -> Nat.iter k safeDelete w = w.
Proof.
  intros Hm. induction k as [| k IH]; simpl; [reflexivity |].
  rewrite IH. unfold safeDelete. rewrite Hm. reflexivity.
Qed.

Lemma safeDelete_iter (k : nat) (w : World) :
  Nat.iter (S k) safeDelete w = safeDelete w.
Proof.
  induction k as [| k IH]; [reflexivity |].
  change (Nat.iter (S (S k)) safeDelete w)
    with (safeDelete (Nat.iter (S k) safeDelete w)).
  rewrite IH. unfold safeDelete at 1.
  rewrite safeDelete_marks. reflexivity.
Qed.

(** C2.  For a task that is in use (reached through its methods and not
    yet destroyed): [safeDelete()] called from outside a notification
    destroys it within that call; calling it any number of times destroys
    it once.  When a slot connected to [finished()] calls [safeDelete()],
    the emission returns with the task still undestroyed, and [done()] then
    destroys it, once.  In general, [safeDelete()] called while the task is
    notifying only sets the mark and touches neither the log nor the
    queue. *)
Theorem safeDelete_defers_inside_notification (n : nat) (w : World) :
  reachable X w -> destroyed w = false ->
  log (safeDelete w) = (log w ++ [Destroyed])%list
  /\ (forall k, destructions (Nat.iter (S k) safeDelete w) = 1%nat)
  /\ (P.done (d w) = false ->
      In SafeDelete (finishedSlots X (d (entering w))) ->
      exists wh,
        finished X (done X n) (entering w) = Ok wh
        /\ destructions wh = 0%nat
        /\ done X (S n) w = Ok (deleteSingle (upd (P.set_insig false) wh))
        /\ destructions (deleteSingle (upd (P.set_insig false) wh)) = 1%nat)
  /\ (forall w', P.insig (d w') = true ->
        P.deleteme (d (safeDelete w')) = true
        /\ log (safeDelete w') = log w'
        /\ queue (safeDelete w') = queue w'
        /\ forall k, destructions (Nat.iter k safeDelete w')
                      = destructions w').
Proof.
  intros R Hx.
  destruct (reachable_settled w R) as [Hi Hm].
  assert (Hdm : P.deleteme (d w) = false).
  { destruct (P.deleteme (d w)); [| reflexivity].
    rewrite Hm in Hx by reflexivity; discriminate. }
  assert (H0 : destructions w = 0%nat) by (apply destroyed_destructions, Hx).
  assert (Hlog : log (safeDelete w) = (log w ++ [Destroyed])%list).
  { unfold safeDelete. rewrite Hdm; simpl. rewrite Hi; reflexivity. }
  split; [exact Hlog |]. split; [| split].
  - intros k. rewrite safeDelete_iter.
    unfold destructions in *. rewrite Hlog, filter_app, length_app, H0.
    reflexivity.
  - intros Hd Hin.
    destruct (done_runs n w Hd Hi) as (wh & E & I & E').
    exists wh. split; [exact E |].
    assert (Hwh : destructions wh = 0%nat).
    { rewrite (in_destructions _ _ I), destructions_emit; simpl.
      destruct (entering_frame w) as (_ & _ & _ & El & _).
      unfold destructions in *; rewrite El; lia. }
    assert (Hmk : P.deleteme (d wh) = true).
    { unfold finished in E.
      destruct (entering_flags w) as [Ed Ei].
      eapply (calls_inside_marked (done X n)); [| | exact Hin | exact E];
        assumption. }
    split; [exact Hwh |]. split.
    + rewrite E'. unfold leaving; simpl. rewrite Hmk. reflexivity.
    + unfold deleteSingle. rewrite destructions_emit; simpl.
      unfold destructions in *; simpl. lia.
  - intros w' Hi'.
    assert (Hs : safeDelete w'
                 = if P.deleteme (d w') then w'
                   else upd (P.set_deleteme true) w').
    { unfold safeDelete. destruct (P.deleteme (d w')); [reflexivity |].
      simpl. rewrite Hi'; reflexivity. }
    split; [apply safeDelete_marks |].
    split; [rewrite Hs; destruct (P.deleteme (d w')); reflexivity |].
    split; [rewrite Hs; destruct (P.deleteme (d w')); reflexivity |].
    intros [| k]; [reflexivity |].
    rewrite safeDelete_iter, Hs.
    destruct (P.deleteme (d w')); reflexivity.
Qed.

(** *** Disconnection *)

(** Deferred calls of [done()] on a task that is done change nothing. *)
Lemma runDeferred_when_done (n : nat) (l : list Deferred) (w : World) :
  Forall (eq DeferredDone) l -> P.done (d w) = true ->
  runDeferred X n l w = Ok w.
Proof.
  intros Hl Hd. induction Hl as [| c l <- _ IH]; simpl; [reflexivity |].
  unfold dispatch. destruct (destroyed w); simpl; [exact IH |].
  destruct n; simpl; rewrite Hd; simpl; exact IH.
Qed.

(** The event loop turn after [onDisconnect()] on a pending task. *)
Lemma forced_disconnect (n : nat) (w : World) :
  P.done (d w) = false -> P.insig (d w) = false ->
  destroyed w = false -> Forall (eq DeferredDone) (queue w) ->
  exists w',
    loopTurn X (S n) (onDisconnect X w) = Ok w'
    /\ P.done (d w') = true
    /\ outcome w'
       = (false, ErrDisc, tr X "Disconnected", P.error (d w))
    /\ notifications w' = S (notifications w).
Proof.
  intros Hd Hi Hx Hq.
  unfold loopTurn, onDisconnect. rewrite Hd; cbn [negb].
  set (w0 := setQueue []
               (post DeferredDone
                  (upd (P.set_statusString (tr X "Disconnected"))
                     (upd (P.set_statusCode ErrDisc)
                        (upd (P.set_success false) w))))).
  assert (H0d : P.done (d w0) = false) by exact Hd.
  assert (H0i : P.insig (d w0) = false) by exact Hi.
  destruct (done_completes n w0 H0d H0i)
    as (w1 & E & Eo & Ed & _ & _ & En & _).
  exists w1.
  assert (Hrun : forall l, Forall (eq DeferredDone) l ->
            runDeferred X (S n) (l ++ [DeferredDone])%list w0 = Ok w1).
  { intros l Hl. destruct Hl as [| c l <- Hl].
    - cbn [app runDeferred]. unfold dispatch.
      change (destroyed w0) with (destroyed w). rewrite Hx, E. reflexivity.
    - cbn [app runDeferred]. unfold dispatch at 1.
      change (destroyed w0) with (destroyed w). rewrite Hx, E.
      cbn [bind]. apply runDeferred_when_done; [| exact Ed].
      apply Forall_app; split; [exact Hl | repeat constructor]. }
  split; [exact (Hrun (queue w) Hq) |].
  split; [exact Ed |]. split; [exact Eo | exact En].
Qed.


(** C10, as amended.  [ErrDisc] is 0, the default code of [setSuccess]; a
    pending task completed by the forced disconnect and the same task
    completed by [setSuccess()] with its default arguments both end up done
    with status code 0.  They differ in [success()], and the status string
    is the translated text of [Disconnected] in the one and the empty
    default in the other, so apart from [success()] the status string
    separates them as well whenever that text is not empty. *)
Theorem ErrDisc_equals_default_success_code (n : nat) (w : World) :
  P.done (d w) = false -> P.insig (d w) = false ->
  destroyed w = false -> Forall (eq DeferredDone) (queue w) ->
  ErrDisc = 0 /\ defaultCode = 0
  /\ exists wd ws,
       loopTurn X (S n) (onDisconnect X w) = Ok wd
       /\ setSuccess (done X (S n)) defaultCode defaultStr w = Ok ws
       /\ P.done (d wd) = true /\ P.done (d ws) = true
       /\ statusCode wd = 0 /\ statusCode ws = 0
       /\ success wd = false /\ success ws = true
       /\ statusString wd = tr X "Disconnected" /\ statusString ws = ""
       /\ P.error (d wd) = P.error (d ws)
       /\ (tr X "Disconnected" <> "" -> statusString wd <> statusString ws).
Proof.
  intros Hd Hi Hx Hq. split; [reflexivity |]. split; [reflexivity |].
  destruct (forced_disconnect n w Hd Hi Hx Hq) as (wd & E & Ed & Eo & _).
  assert (H0d : P.done
                  (d (upd (P.set_statusString defaultStr)
                        (upd (P.set_statusCode defaultCode)
                           (upd (P.set_success true) w)))) = false)
    by exact Hd.
  destruct (done_completes n _ H0d Hi) as (ws & Es & Eso & Esd & _).
  exists wd, ws.
  unfold setSuccess; rewrite Hd; cbn [negb].
  unfold outcome in Eo, Eso; simpl in Eso.
  injection Eo as Eo1 Eo2 Eo3 Eo4. injection Eso as Es1 Es2 Es3 Es4.
  unfold statusCode, success, statusString.
  repeat split; try assumption.
  - congruence.
  - intros Hne Heq. apply Hne. unfold defaultStr in *. congruence.
Qed.

(** *** Structured errors and sending *)

(** C7.  [errorType()] and [errorCondition()] are 0 without a stored error
    and the fields of the stored error otherwise.
    [getStanzaErrorFromElement] gives nothing when the element has no
    [error] child and otherwise the default error as parsed by
    [Error::fromXml] from the first such child.  [setError(element)] on a
    pending task returns and stores exactly that, so an error is stored
    exactly when there is an [error] child. *)
Theorem structured_error_captured (n : nat) (e : Dom.Element) (w : World)
  (cl : Client) :
  P.client (d w) = Some cl ->
  P.done (d w) = false -> P.insig (d w) = false ->
  (forall p,
     (P.error p = None -> errorType p = 0 /\ errorCondition p = 0)
     /\ (forall er, P.error p = Some er ->
           errorType p = Stanza.Error.type er
           /\ errorCondition p = Stanza.Error.condition er))
  /\ (forall ns,
        match Dom.findSubTag e "error" with
        | None => getStanzaErrorFromElement X e ns = None
        | Some tag =>
            getStanzaErrorFromElement X e ns
            = Some (snd (Error_fromXml X tag ns Stanza.Error.default))
        end)
  /\ exists w1,
       setErrorXml X (done X (S n)) e w = Ok w1
       /\ success w1 = false
       /\ P.error (d w1) = getStanzaErrorFromElement X e (streamBaseNS cl)
       /\ (P.error (d w1) <> None <-> Dom.findSubTag e "error" <> None).
Proof.
  intros Hc Hd Hi. split; [| split].
  - intros p; split.
    + intros H; unfold errorType, errorCondition; rewrite H; auto.
    + intros er H; unfold errorType, errorCondition; rewrite H; auto.
  - intros ns. unfold getStanzaErrorFromElement.
    destruct (Dom.findSubTag e "error"); reflexivity.
  - unfold setErrorXml. rewrite Hd; cbn [negb].
    cbn [upd d P.client P.set_success]. rewrite Hc.
    match goal with
    | |- exists w1, done X (S n) ?w0 = _ /\ _ =>
        destruct (done_completes n w0 Hd Hi) as (w1 & E & Eo & _)
    end.
    exists w1. split; [exact E |].
    unfold outcome in Eo; simpl in Eo.
    injection Eo as E1 _ _ E4. unfold success.
    split; [exact E1 |]. split; [exact E4 |].
    rewrite E4. unfold getStanzaErrorFromElement.
    destruct (Dom.findSubTag e "error"); split; intros H; congruence.
Qed.

(** C8.  [go(autoDelete)] stores the flag.  Without a client or without a
    stream it logs the warning, queues [deleteLater()] exactly when
    [autoDelete] is set, and does not enter [onGo()]; with both it enters
    [onGo()] and does nothing else. *)
Theorem go_without_transport_warns (autoDel : bool) (w : World) :
  P.autoDelete (d (go autoDel w)) = autoDel
  /\ (hasTransport (d w) = false ->
        log (go autoDel w) = (log w ++ [brokenConnectionWarning])%list
        /\ queue (go autoDel w)
           = (if autoDel then queue w ++ [DeferredDelete] else queue w)%list
        /\ filter isOnGo (log (go autoDel w)) = filter isOnGo (log w))
  /\ (hasTransport (d w) = true ->
        log (go autoDel w) = (log w ++ [OnGo])%list
        /\ queue (go autoDel w) = queue w).
Proof.
  unfold hasTransport, go; simpl.
  destruct (P.client (d w)) as [cl |]; [destruct (stream cl) |];
    destruct autoDel; simpl; repeat split; intros; try discriminate;
    try reflexivity;
    rewrite filter_app; simpl; apply app_nil_r.
Qed.

(** C1.  On a task that is not yet done (with a client when the call is
    [setError(element)], which reads the stream namespace through it), the
    first of any series of [setSuccess]/[setError] calls returns, records
    its own values (success flag, status code, status string, structured
    error), sets the terminal flag and emits [finished()] exactly once;
    every later call of the series leaves the whole state as it is.  A
    completing call on a task that is already done changes nothing; in
    particular, whatever the slots connected to [finished()] have called so
    far during the emission, a completing call made by them changes
    nothing. *)
Theorem first_completion_wins (n : nat) (c : Completion)
  (rest : list Completion) (w : World) :
  (forall e, c = SetErrorXml e -> P.client (d w) <> None) ->
  P.done (d w) = false -> P.insig (d w) = false ->
  exists w1,
    complete X (done X (S n)) c w = Ok w1
    /\ calls X (done X (S n)) (map Complete rest) w1 = Ok w1
    /\ outcome w1 = firstOutcome X c w
    /\ P.done (d w1) = true
    /\ notifications w1 = S (notifications w)
    /\ (forall dn c' w', P.done (d w') = true ->
          complete X dn c' w' = Ok w')
    /\ (forall dn l c' w0 wh,
          calls X dn l (emit Finished (entering w0)) = Ok wh ->
          complete X dn c' wh = Ok wh).
Proof.
  intros Hc Hd Hi.
  assert (Hrest : forall w1, P.done (d w1) = true ->
            calls X (done X (S n)) (map Complete rest) w1 = Ok w1).
  { intros w1 H1. induction rest as [| c' r IH]; simpl; [reflexivity |].
    rewrite (complete_when_done _ c' w1 H1); simpl. exact IH. }
  assert (Hslots : forall dn l c' w0 wh,
            calls X dn l (emit Finished (entering w0)) = Ok wh ->
            complete X dn c' wh = Ok wh).
  { intros dn l c' w0 wh E.
    destruct (entering_flags w0) as [Ed Ei].
    destruct (calls_inside dn l (emit Finished (entering w0)) Ed Ei)
      as (wh' & E' & I).
    rewrite E' in E; injection E as <-.
    apply complete_when_done. exact (in_done _ _ I). }
  assert (Hfin : forall w0, P.done (d w0) = false ->
            P.insig (d w0) = false ->
            outcome w0 = firstOutcome X c w ->
            notifications w0 = notifications w ->
            exists w1, done X (S n) w0 = Ok w1
              /\ calls X (done X (S n)) (map Complete rest) w1 = Ok w1
              /\ outcome w1 = firstOutcome X c w
              /\ P.done (d w1) = true
              /\ notifications w1 = S (notifications w)
              /\ (forall dn c' w', P.done (d w') = true ->
                    complete X dn c' w' = Ok w')
              /\ (forall dn l c' w0 wh,
                    calls X dn l (emit Finished (entering w0)) = Ok wh ->
                    complete X dn c' wh = Ok wh)).
  { intros w0 H0 H0i Ho Hn.
    destruct (done_completes n w0 H0 H0i)
      as (w1 & E & Eo & Ed & _ & _ & En & _).
    exists w1; repeat split; auto.
    - congruence.
    - congruence.
    - intros dn c' w'; apply complete_when_done. }
  destruct c as [code str | e | code str];
    unfold complete, setSuccess, setErrorXml, setError;
    rewrite Hd; cbn [negb].
  - apply Hfin; simpl; auto.
  - cbn [upd d P.client P.set_success].
    destruct (P.client (d w)) as [cl |] eqn:Hcl;
      [| exfalso; exact (Hc e eq_refl eq_refl)].
    apply Hfin; simpl; auto.
    unfold outcome; simpl. rewrite Hcl; reflexivity.
  - apply Hfin; simpl; auto.
Qed.

End TaskProperties.

(** ** Dispatch *)

Section Dispatch.

Variable x : Dom.Element.

Lemma vtake_base (name : string) (kids : list QObject) :
  vtake x (TaskObj name None kids) = take x name kids.
Proof.
  unfold take. cbn [vtake].
  match goal with
  | |- (fst ?a, _ :: snd ?a) = _ => assert (H : a = scan x kids)
  end.
  { induction kids as [| o l IH]; [reflexivity |].
    cbn [scan]. rewrite <- IH. reflexivity. }
  rewrite H. reflexivity.
Qed.

Lemma scan_declined (l : list QObject) :
  Forall (declines x) l -> scan x l = (false, visits x l).
Proof.
  unfold visits, declines.
  induction 1 as [| o l Ho _ IH]; simpl; [reflexivity |].
  destruct (inheritsTask o) eqn:Ht; simpl; [| exact IH].
  destruct Ho as [Ho | Ho]; [discriminate |].
  rewrite Ho, IH. reflexivity.
Qed.

Lemma scan_claimed (pre : list QObject) (c : QObject) (post : list QObject) :
  Forall (declines x) pre -> inheritsTask c = true -> fst (vtake x c) = true ->
  scan x (pre ++ c :: post) = (true, (visits x pre ++ snd (vtake x c))%list).
Proof.
  unfold visits, declines. intros Hpre Hc Hv.
  induction Hpre as [| o l Ho _ IH]; simpl.
  - rewrite Hc, Hv. reflexivity.
  - destruct (inheritsTask o) eqn:Ht; simpl; [| exact IH].
    destruct Ho as [Ho | Ho]; [discriminate |].
    rewrite Ho, IH. simpl. rewrite app_assoc. reflexivity.
Qed.

Lemma scan_verdict (l : list QObject) :
  fst (scan x l)
  = existsb (fun o => inheritsTask o && fst (vtake x o)) l.
Proof.
  induction l as [| o l IH]; simpl; [reflexivity |].
  destruct (inheritsTask o); simpl; [| exact IH].
  destruct (fst (vtake x o)); simpl; [reflexivity | exact IH].
Qed.

(** C3.  The base [take] of a task is the scan of its children in their
    order.  Children that are not tasks are skipped.  If the children before
    some task child all decline and that child claims the element, the
    result is true and the visits are those of the tasks before it followed
    by its own: no later sibling is entered.  If every child declines, the
    result is false after all task children were visited.  The verdict is
    true only when a task child returns true; the base method adds no claim
    of its own. *)
Theorem take_stops_at_first_claim (name : string) (kids : list QObject) :
  vtake x (TaskObj name None kids) = take x name kids
  /\ (forall pre c post,
        kids = (pre ++ c :: post)%list ->
        Forall (declines x) pre ->
        inheritsTask c = true -> fst (vtake x c) = true ->
        take x name kids
        = (true, name :: (visits x pre ++ snd (vtake x c))%list))
  /\ (Forall (declines x) kids -> take x name kids = (false, name :: visits x kids))
  /\ fst (take x name kids)
     = existsb (fun o => inheritsTask o && fst (vtake x o)) kids
  /\ (forall o l, inheritsTask o = false -> scan x (o :: l) = scan x l).
Proof.
  split; [apply vtake_base |]. split; [| split; [| split]].
  - intros pre c post -> Hpre Hc Hv. unfold take.
    rewrite (scan_claimed pre c post Hpre Hc Hv). reflexivity.
  - intros H. unfold take. rewrite (scan_declined kids H). reflexivity.
  - unfold take; simpl. apply scan_verdict.
  - intros o l H. simpl. rewrite H. reflexivity.
Qed.

End Dispatch.

(** ** Reply verification *)

Lemma compare_exact_bare (a b : Jid.t) :
  Jid.compare a b true = true -> Jid.compare a b false = true.
Proof.
  unfold Jid.compare. intros H.
  apply andb_true_iff in H as [H _]. rewrite H. reflexivity.
Qed.

Lemma compare_withoutResource (a b : Jid.t) :
  Jid.compare a (Jid.withoutResource b) true = true ->
  Jid.compare a b false = true.
Proof.
  unfold Jid.compare, Jid.withoutResource; simpl. intros H.
  apply andb_true_iff in H as [H _]. rewrite H. reflexivity.
Qed.

(** What [iqVerify] has checked when it returns true. *)
Lemma iqVerify_true (p : TaskPrivate.t) (cl : Client) (x : Dom.Element)
  (to : Jid.t) (id xmlns : string) :
  P.client p = Some cl ->
  iqVerify p x to id xmlns = Ok true ->
  let from := Jid.fromString (Dom.attribute x "from") in
  String.eqb (Dom.tagName x) "iq" = true
  /\ (if Jid.isEmpty from then
        Jid.isEmpty to || Jid.compare to (host cl) true
      else if Jid.compare from (jid cl) false
              || Jid.compare from (Jid.fromString (Jid.domain (jid cl)))
                   false
      then Jid.isEmpty to || Jid.compare to (jid cl) false
           || Jid.compare to (host cl) true
      else Jid.compare from to true) = true
  /\ (String.eqb id "" || String.eqb (Dom.attribute x "id") id) = true
  /\ (String.eqb xmlns "" || String.eqb (Dom.queryNS x) xmlns) = true.
Proof.
  intros Hc. unfold iqVerify. rewrite Hc. cbv zeta.
  set (from := Jid.fromString (Dom.attribute x "from")).
  destruct (String.eqb (Dom.tagName x) "iq"); cbn [negb];
    [| discriminate].
  destruct (Jid.isEmpty from);
    [| destruct (Jid.compare from (jid cl) false
                 || Jid.compare from (Jid.fromString (Jid.domain (jid cl)))
                      false)];
    destruct (Jid.isEmpty to); destruct (Jid.compare to (host cl) true);
    destruct (Jid.compare to (jid cl) false);
    destruct (Jid.compare from to true);
    cbn [negb andb orb]; try discriminate;
    destruct (String.eqb id "");
    destruct (String.eqb (Dom.attribute x "id") id);
    cbn [negb andb orb]; try discriminate;
    destruct (String.eqb xmlns "");
    destruct (String.eqb (Dom.queryNS x) xmlns);
    cbn [negb andb orb]; try discriminate; auto.
Qed.

(** C4, as amended.  When [iqVerify] returns true: if the sender of [x] is
    empty, [to] is empty or equals the server address; if the sender equals
    our full address or our bare address, [to] is empty, or [to] equals our
    own address up to the resource (our bare address or any of our full
    addresses), or [to] equals the server address. *)
Theorem iqVerify_sender_empty_or_own (p : TaskPrivate.t) (cl : Client)
  (x : Dom.Element) (to : Jid.t) (id xmlns : string) :
  P.client p = Some cl ->
  iqVerify p x to id xmlns = Ok true ->
  let from := Jid.fromString (Dom.attribute x "from") in
  (Jid.isEmpty from = true ->
     Jid.isEmpty to = true \/ Jid.compare to (host cl) true = true)
  /\ (Jid.compare from (jid cl) true = true
      \/ Jid.compare from (Jid.withoutResource (jid cl)) true = true ->
      Jid.isEmpty to = true
      \/ Jid.compare to (jid cl) false = true
      \/ Jid.compare to (host cl) true = true).
Proof.
  intros Hc Hv from.
  destruct (iqVerify_true p cl x to id xmlns Hc Hv) as (_ & Ha & _).
  fold from in Ha. split.
  - intros He. rewrite He in Ha.
    apply orb_true_iff in Ha. exact Ha.
  - intros Hown.
    assert (Hb : Jid.compare from (jid cl) false = true).
    { destruct Hown as [H | H];
        [apply compare_exact_bare | apply compare_withoutResource];
        exact H. }
    rewrite Hb in Ha. cbn [orb] in Ha.
    destruct (Jid.isEmpty from).
    + apply orb_true_iff in Ha as [H | H]; auto.
    + apply orb_true_iff in Ha as [H | H]; [| auto].
      apply orb_true_iff in H as [H | H]; auto.
Qed.

(** C4 as stated fails: a reply from our own full address to a request
    that was sent to our own full address is accepted, although [to] is
    neither empty, nor our bare address, nor the server address. *)
Lemma iqVerify_own_full_address_accepted :
  P.client (d Samples.fresh) = Some Samples.connected
  /\ Jid.compare (Jid.fromString (Dom.attribute Samples.selfReply "from"))
       (jid Samples.connected) true = true
  /\ iqVerify (d Samples.fresh) Samples.selfReply
       (Jid.fromString "me@host/r1") "a1" "" = Ok true
  /\ Jid.isEmpty (Jid.fromString "me@host/r1") = false
  /\ Jid.compare (Jid.fromString "me@host/r1")
       (Jid.withoutResource (jid Samples.connected)) true = false
  /\ Jid.compare (Jid.fromString "me@host/r1")
       (host Samples.connected) true = false.
Proof. repeat split. Qed.

(** C5, as amended.  [iqVerify] returns true only if [x] is an [iq]
    element; a sender that is neither empty, nor one of our own addresses
    (ours up to the resource), nor an address of our own domain equals [to]
    exactly; a non-empty [id] equals the [id] attribute of [x]; and a
    non-empty [xmlns] equals the query namespace of [x]. *)
Theorem iqVerify_true_only_if_rules_pass (p : TaskPrivate.t) (cl : Client)
  (x : Dom.Element) (to : Jid.t) (id xmlns : string) :
  P.client p = Some cl ->
  iqVerify p x to id xmlns = Ok true ->
  let from := Jid.fromString (Dom.attribute x "from") in
  Dom.tagName x = "iq"
  /\ (Jid.isEmpty from = false ->
      Jid.compare from (jid cl) false = false ->
      Jid.compare from (Jid.fromString (Jid.domain (jid cl))) false = false ->
      Jid.compare from to true = true)
  /\ (id <> "" -> Dom.attribute x "id" = id)
  /\ (xmlns <> "" -> Dom.queryNS x = xmlns).
Proof.
  intros Hc Hv from.
  destruct (iqVerify_true p cl x to id xmlns Hc Hv) as (Ht & Ha & Hi & Hn).
  fold from in Ha. split; [| split; [| split]].
  - apply String.eqb_eq; exact Ht.
  - intros He Hl Hdom. rewrite He, Hl, Hdom in Ha. exact Ha.
  - intros Hne. apply orb_true_iff in Hi as [H | H].
    + apply String.eqb_eq in H; contradiction.
    + apply String.eqb_eq; exact H.
  - intros Hne. apply orb_true_iff in Hn as [H | H].
    + apply String.eqb_eq in H; contradiction.
    + apply String.eqb_eq; exact H.
Qed.

(** C5 as stated fails: a reply whose sender is our server's domain is
    accepted for a request that was sent to our own address, although that
    sender is not empty, is none of our own addresses and differs from
    [to]. *)
Lemma iqVerify_own_domain_sender_accepted :
  P.client (d Samples.fresh) = Some Samples.connected
  /\ iqVerify (d Samples.fresh) Samples.serverReply
       (Jid.fromString "me@host/r1") "a1" "" = Ok true
  /\ Dom.attribute Samples.serverReply "from" = "host"
  /\ Jid.isEmpty (Jid.fromString "host") = false
  /\ Jid.compare (Jid.fromString "host") (jid Samples.connected) false
     = false
  /\ Jid.compare (Jid.fromString "host") (Jid.fromString "me@host/r1") true
     = false.
Proof. repeat split. Qed.

(** ** Legacy error codes *)

Section LegacyCodes.

Import Stanza.Error.

Variable table : list Entry.

Lemma codeToTypeCond_found (l : list Entry) (c : Z) :
  In c (map e_code l) ->
  exists ty cond, codeToTypeCond l c = Some (ty, cond).
Proof.
  induction l as [| en l IH]; simpl; [intros [] |].
  intros [H | H].
  - rewrite H, Z.eqb_refl. eauto.
  - destruct (e_code en =? c); eauto.
Qed.

Lemma typeCondToCode_missing (l : list Entry) (ty cond : Z) :
  (forall en, In en l -> ~ (e_type en = ty /\ e_cond en = cond)) ->
  typeCondToCode l ty cond = 0.
Proof.
  induction l as [| en l IH]; simpl; intros H; [reflexivity |].
  destruct (e_type en =? ty) eqn:Et; destruct (e_cond en =? cond) eqn:Ec;
    simpl; try (apply IH; intros en' Hin; apply H; right; exact Hin).
  exfalso. apply (H en); [left; reflexivity |].
  split; apply Z.eqb_eq; assumption.
Qed.

(** C9.  Over any table of non-zero legacy codes: for every code of the
    table, [fromCode] recognises it and [code] of the resulting error is
    that code again; and [code] of an error constructed from a type and a
    condition that form no row of the table is 0. *)
Theorem legacy_code_roundtrip :
  Forall (fun en => e_code en <> 0) table ->
  (forall c e,
     In c (map e_code table) ->
     fst (fromCode table c e) = true
     /\ code table (snd (fromCode table c e)) = c)
  /\ (forall ty cond txt app,
        (forall en, In en table -> ~ (e_type en = ty /\ e_cond en = cond)) ->
        code table (new ty cond txt app) = 0).
Proof.
  intros Hnz. split.
  - intros c e Hin.
    assert (Hc : c <> 0).
    { apply in_map_iff in Hin as (en & <- & Hen).
      rewrite Forall_forall in Hnz. apply Hnz; exact Hen. }
    destruct (codeToTypeCond_found table c Hin) as (ty & cond & E).
    unfold fromCode. rewrite E; simpl. split; [reflexivity |].
    unfold code; simpl.
    destruct (c =? 0) eqn:E0; [| reflexivity].
    apply Z.eqb_eq in E0; contradiction.
  - intros ty cond txt app H. unfold code, new; simpl.
    apply typeCondToCode_missing; exact H.
Qed.

End LegacyCodes.

(** ** The theorems at concrete inputs *)

Import Samples.

(** C1: an error reply, then two more completing calls, on a fresh task
    whose slots try to complete it again. *)
Lemma first_completion_wins_witness :
  ((forall e, SetErrorXml errorReply = SetErrorXml e ->
      P.client (d fresh) <> None)
   /\ P.done (d fresh) = false /\ P.insig (d fresh) = false)
  /\ exists w1,
       complete greedy (done greedy 1) (SetErrorXml errorReply) fresh = Ok w1
       /\ calls greedy (done greedy 1)
            (map Complete [SetSuccess 1 "x"; SetError 2 "y"]) w1 = Ok w1
       /\ outcome w1 = firstOutcome greedy (SetErrorXml errorReply) fresh
       /\ P.done (d w1) = true
       /\ notifications w1 = S (notifications fresh)
       /\ (forall dn c' w', P.done (d w') = true ->
             complete greedy dn c' w' = Ok w')
       /\ (forall dn l c' w0 wh,
             calls greedy dn l (emit Finished (entering w0)) = Ok wh ->
             complete greedy dn c' wh = Ok wh).
Proof.
  assert (H : forall e, SetErrorXml errorReply = SetErrorXml e ->
                P.client (d fresh) <> None)
    by (intros e _; discriminate).
  split; [repeat split; exact H |].
  apply (first_completion_wins greedy 0 (SetErrorXml errorReply)
           [SetSuccess 1 "x"; SetError 2 "y"] fresh H);
    reflexivity.
Defined.

(** C2: the same task, whose slots call [safeDelete()] twice. *)
Lemma safeDelete_defers_inside_notification_witness :
  (reachable greedy fresh /\ destroyed fresh = false)
  /\ log (safeDelete fresh) = (log fresh ++ [Destroyed])%list
  /\ (forall k, destructions (Nat.iter (S k) safeDelete fresh) = 1%nat)
  /\ (P.done (d fresh) = false ->
      In SafeDelete (finishedSlots greedy (d (entering fresh))) ->
      exists wh,
        finished greedy (done greedy 0) (entering fresh) = Ok wh
        /\ destructions wh = 0%nat
        /\ done greedy 1 fresh
           = Ok (deleteSingle (upd (P.set_insig false) wh))
        /\ destructions (deleteSingle (upd (P.set_insig false) wh)) = 1%nat)
  /\ (forall w', P.insig (d w') = true ->
        P.deleteme (d (safeDelete w')) = true
        /\ log (safeDelete w') = log w'
        /\ queue (safeDelete w') = queue w'
        /\ forall k, destructions (Nat.iter k safeDelete w')
                      = destructions w').
Proof.
  assert (R : reachable greedy fresh)
    by exact (reach_child greedy 12345 connected "a1").
  split; [split; [exact R | reflexivity] |].
  apply (safeDelete_defers_inside_notification greedy 0 fresh R).
  reflexivity.
Defined.

(** C3: a router with a foreign object, a task that declines, a task that
    claims, and a task that would claim as well. *)
Lemma take_stops_at_first_claim_witness :
  take plainReply "root"
    [Other "QTimer"; TaskObj "a" (Some (fun _ => false)) [];
     TaskObj "b" None [TaskObj "b1" (Some (fun _ => true)) []];
     TaskObj "c" (Some (fun _ => true)) []]
  = (true, ["root"; "a"; "b"; "b1"]).
Proof.
  apply (proj1 (proj2 (take_stops_at_first_claim plainReply "root" _))
           [Other "QTimer"; TaskObj "a" (Some (fun _ => false)) []]
           (TaskObj "b" None [TaskObj "b1" (Some (fun _ => true)) []])
           [TaskObj "c" (Some (fun _ => true)) []]).
  - reflexivity.
  - constructor; [left; reflexivity |].
    constructor; [right; reflexivity | constructor].
  - reflexivity.
  - reflexivity.
Defined.

(** C4: a reply without sender to a request sent to the server. *)
Lemma iqVerify_sender_empty_or_own_witness :
  (P.client (d fresh) = Some connected
   /\ iqVerify (d fresh) plainReply server "a1" "" = Ok true)
  /\ (Jid.isEmpty (Jid.fromString (Dom.attribute plainReply "from")) = true ->
      Jid.isEmpty server = true
      \/ Jid.compare server (host connected) true = true)
  /\ (Jid.compare (Jid.fromString (Dom.attribute plainReply "from"))
        (jid connected) true = true
      \/ Jid.compare (Jid.fromString (Dom.attribute plainReply "from"))
           (Jid.withoutResource (jid connected)) true = true ->
      Jid.isEmpty server = true
      \/ Jid.compare server (jid connected) false = true
      \/ Jid.compare server (host connected) true = true).
Proof.
  split; [split; reflexivity |].
  apply (iqVerify_sender_empty_or_own (d fresh) connected plainReply server
           "a1" ""); reflexivity.
Defined.

(** C5: a reply from our own address with the expected identifier. *)
Lemma iqVerify_true_only_if_rules_pass_witness :
  (P.client (d fresh) = Some connected
   /\ iqVerify (d fresh) selfReply local "a1" "" = Ok true)
  /\ Dom.tagName selfReply = "iq"
  /\ (Jid.isEmpty (Jid.fromString (Dom.attribute selfReply "from")) = false ->
      Jid.compare (Jid.fromString (Dom.attribute selfReply "from"))
        (jid connected) false = false ->
      Jid.compare (Jid.fromString (Dom.attribute selfReply "from"))
        (Jid.fromString (Jid.domain (jid connected))) false = false ->
      Jid.compare (Jid.fromString (Dom.attribute selfReply "from")) local true
      = true)
  /\ ("a1" <> "" -> Dom.attribute selfReply "id" = "a1")
  /\ ("" <> "" -> Dom.queryNS selfReply = "").
Proof.
  split; [split; reflexivity |].
  apply (iqVerify_true_only_if_rules_pass (d fresh) connected selfReply local
           "a1" ""); reflexivity.
Defined.


(** C7: the error reply, whose [error] child has the type [auth]. *)
Lemma structured_error_captured_witness :
  (P.client (d fresh) = Some connected
   /\ P.done (d fresh) = false /\ P.insig (d fresh) = false)
  /\ exists w1,
       setErrorXml greedy (done greedy 1) errorReply fresh = Ok w1
       /\ success w1 = false
       /\ P.error (d w1)
          = getStanzaErrorFromElement greedy errorReply
              (streamBaseNS connected)
       /\ (P.error (d w1) <> None
           <-> Dom.findSubTag errorReply "error" <> None).
Proof.
  split; [repeat split |].
  apply (structured_error_captured greedy 0 errorReply fresh connected);
    reflexivity.
Defined.

(** C8: a root task whose client has no stream, sent with [autoDelete]. *)
Lemma go_without_transport_warns_witness :
  hasTransport (d (newRoot 0 (Some streamless))) = false
  /\ log (go true (newRoot 0 (Some streamless))) = [brokenConnectionWarning]
  /\ queue (go true (newRoot 0 (Some streamless))) = [DeferredDelete]
  /\ filter isOnGo (log (go true (newRoot 0 (Some streamless)))) = [].
Proof.
  split; [reflexivity |].
  apply (proj1 (proj2
           (go_without_transport_warns true (newRoot 0 (Some streamless))))).
  reflexivity.
Defined.

(** C9: the rows the spec lists. *)
Lemma legacy_code_roundtrip_witness :
  Forall (fun en => Stanza.Error.e_code en <> 0) Stanza.Error.listedTable
  /\ (forall c e,
        In c (map Stanza.Error.e_code Stanza.Error.listedTable) ->
        fst (Stanza.Error.fromCode Stanza.Error.listedTable c e) = true
        /\ Stanza.Error.code Stanza.Error.listedTable
             (snd (Stanza.Error.fromCode Stanza.Error.listedTable c e)) = c)
  /\ (forall ty cond txt app,
        (forall en, In en Stanza.Error.listedTable ->
           ~ (Stanza.Error.e_type en = ty /\ Stanza.Error.e_cond en = cond)) ->
        Stanza.Error.code Stanza.Error.listedTable
          (Stanza.Error.new ty cond txt app) = 0).
Proof.
  assert (H : Forall (fun en => Stanza.Error.e_code en <> 0)
                Stanza.Error.listedTable)
    by (repeat constructor; discriminate).
  split; [exact H |].
  exact (legacy_code_roundtrip Stanza.Error.listedTable H).
Defined.

(** C10: the fresh task, disconnected on the one hand and completed by
    [setSuccess()] on the other. *)
Lemma ErrDisc_equals_default_success_code_witness :
  (P.done (d fresh) = false /\ P.insig (d fresh) = false
   /\ destroyed fresh = false /\ Forall (eq DeferredDone) (queue fresh))
  /\ ErrDisc = 0 /\ defaultCode = 0
  /\ exists wd ws,
       loopTurn quiet 1 (onDisconnect quiet fresh) = Ok wd
       /\ setSuccess (done quiet 1) defaultCode defaultStr fresh = Ok ws
       /\ P.done (d wd) = true /\ P.done (d ws) = true
       /\ statusCode wd = 0 /\ statusCode ws = 0
       /\ success wd = false /\ success ws = true
       /\ statusString wd = tr quiet "Disconnected" /\ statusString ws = ""
       /\ P.error (d wd) = P.error (d ws)
       /\ (tr quiet "Disconnected" <> "" ->
           statusString wd <> statusString ws).
Proof.
  split; [repeat split; constructor |].
  apply (ErrDisc_equals_default_success_code quiet 0 fresh);
    [reflexivity | reflexivity | reflexivity | constructor].
Defined.

(** * Further properties of the task layer *)

Import Runs.

Section Lifecycle.

Variable X : Externals.

(** What a call of [done()] that returns has done. *)
Lemma done_cases (n : nat) (w w' : World) :
  done X n w = Ok w' ->
  (w' = w /\ (P.done (d w) = true \/ P.insig (d w) = true))
  \/ (P.done (d w) = false /\ P.insig (d w) = false
      /\ outcome w' = outcome w
      /\ P.done (d w') = true /\ P.insig (d w') = false
      /\ P.client (d w') = P.client (d w)
      /\ notifications w' = S (notifications w)).
Proof.
  intros E.
  destruct (P.done (d w)) eqn:Hd.
  - left. destruct n; simpl in E; rewrite Hd in E; simpl in E;
      injection E as <-; auto.
  - destruct (P.insig (d w)) eqn:Hi.
    + left. destruct n; simpl in E; rewrite Hd, Hi in E; simpl in E;
        injection E as <-; auto.
    + right. destruct n as [| n];
        [simpl in E; rewrite Hd, Hi in E; discriminate |].
      destruct (done_completes X n w Hd Hi)
        as (w1 & E1 & Eo & Ed & Ei & Ec & En & _).
      rewrite E1 in E; injection E as <-. auto 10.
Qed.

Lemma outcome_eq (w w' : World) :
  outcome w' = outcome w ->
  P.success (d w') = P.success (d w)
  /\ P.statusCode (d w') = P.statusCode (d w)
  /\ P.statusString (d w') = P.statusString (d w)
  /\ P.error (d w') = P.error (d w).
Proof. unfold outcome. intros E; injection E; auto. Qed.

Lemma accounted_done (n : nat) (w w' : World) :
  accounted w -> done X n w = Ok w' -> accounted w'.
Proof.
  intros A E. destruct (done_cases n w w' E) as [[-> _] | H]; [exact A |].
  destruct H as (Hd & Hi & Eo & Ed & Ei & _ & En).
  destruct A as (_ & An & Ae).
  destruct (outcome_eq _ _ Eo) as (Es & _ & _ & Ee).
  rewrite Hd in An.
  split; [exact Ei |]. split; [rewrite Ed, En, An; reflexivity |].
  rewrite Es, Ee; exact Ae.
Qed.

Lemma done_leaves_done_or_same (n : nat) (w w' : World) :
  done X n w = Ok w' -> w' = w \/ P.done (d w') = true.
Proof.
  intros E. destruct (done_cases n w w' E) as [[-> _] | H]; [left; auto |].
  right; tauto.
Qed.

Lemma invariant_call (n : nat) (c : Call) (w w' : World) :
  accounted w -> pendingClean w ->
  call X (done X n) c w = Ok w' -> accounted w' /\ pendingClean w'.
Proof.
  intros A C E. pose proof A as (Ai & An & Ae).
  destruct c as [c | | b |]; simpl in E.
  - destruct (P.done (d w)) eqn:Hd.
    + rewrite (complete_when_done X _ c w Hd) in E; injection E as <-.
      split; assumption.
    + destruct (C Hd) as [Cs Ce].
      assert (K : forall w0, P.insig (d w0) = false ->
                P.done (d w0) = false ->
                notifications w0 = notifications w ->
                (P.error (d w0) <> None -> P.success (d w0) = false) ->
                done X n w0 = Ok w' -> accounted w' /\ pendingClean w').
      { intros w0 H0i H0d H0n H0e E0.
        assert (A0 : accounted w0).
        { split; [exact H0i |]. split; [| exact H0e].
          rewrite H0d, H0n, An. reflexivity. }
        split; [exact (accounted_done n w0 w' A0 E0) |].
        destruct (done_cases n w0 w' E0) as [[_ [H | H]] | H];
          [congruence | congruence |].
        intros Hp. destruct H as (_ & _ & _ & H & _). congruence. }
      destruct c as [code str | e | code str];
        unfold complete, setSuccess, setErrorXml, setError in E;
        rewrite Hd in E; cbn [negb] in E.
      * apply K in E; simpl; auto. intros H; contradiction.
      * cbn [upd d P.client P.set_success] in E.
        destruct (P.client (d w)); [| discriminate].
        apply K in E; simpl; auto.
      * apply K in E; simpl; auto.
  - injection E as <-. unfold safeDelete.
    destruct (P.deleteme (d w)); [split; assumption |].
    destruct (negb (P.insig (upd (P.set_deleteme true) w).(d)));
      (split; [split; [exact Ai | split; [| exact Ae]] | exact C]);
      simpl; rewrite <- An; log_count.
  - injection E as <-. unfold go; simpl.
    destruct (P.client (d w)) as [cl |]; [destruct (stream cl) |];
      try destruct b;
      (split; [split; [exact Ai | split; [| exact Ae]] | exact C]);
      simpl; rewrite <- An; log_count.
  - injection E as <-. unfold clientDisconnected, onDisconnect.
    destruct (P.done (d w)) eqn:Hd; cbn [negb]; [split; assumption |].
    destruct (C Hd) as [Cs Ce].
    split; [split; [exact Ai | split] |]; simpl.
    + rewrite Hd. exact An.
    + intros _; reflexivity.
    + intros _. split; [reflexivity | exact Ce].
Qed.

Lemma invariant_runDeferred (n : nat) (l : list Deferred) :
  forall w w', accounted w -> pendingClean w ->
  runDeferred X n l w = Ok w' -> accounted w' /\ pendingClean w'.
Proof.
  induction l as [| c l IH]; intros w w' A C E; simpl in E.
  - injection E as <-; split; assumption.
  - destruct (dispatch X n c w) as [w1 | f] eqn:E1; [| discriminate].
    simpl in E. apply (IH w1 w'); [| | exact E];
      unfold dispatch in E1; destruct (destroyed w);
      try (injection E1 as <-; assumption); destruct c;
      try (injection E1 as <-).
    + eapply accounted_done; eassumption.
    + destruct A as (Ai & An & Ae).
      split; [exact Ai | split; [| exact Ae]].
      simpl. rewrite <- An. log_count.
    + destruct (done_leaves_done_or_same n w w1 E1) as [-> | H];
        [exact C |].
      intros Hp; congruence.
    + exact C.
Qed.

Lemma reachable_invariant (w : World) :
  reachable X w -> accounted w /\ pendingClean w.
Proof.
  induction 1 as [u cl uid | u c | n c w w' _ IH E | n w w' _ IH E].
  - split; [repeat split; intros H; try discriminate; contradiction |].
    intros _; split; reflexivity.
  - split; [repeat split; intros H; try discriminate; contradiction |].
    intros _; split; reflexivity.
  - destruct IH as [A C]. eapply invariant_call; eassumption.
  - destruct IH as [A C]. unfold loopTurn in E.
    eapply invariant_runDeferred; [| | exact E]; assumption.
Qed.

(** X1.  However a task was used since its construction (any calls, any
    turns of the event loop), [finished()] has been emitted exactly once if
    the task is done and not at all if it is pending. *)
Theorem notified_once_iff_done (w : World) :
  reachable X w ->
  notifications w = (if P.done (d w) then 1 else 0)%nat.
Proof.
  intros R. destruct (reachable_invariant w R) as [(_ & An & _) _].
  exact An.
Qed.

(** X2.  A task in use reports success only when it is done, and holds a
    structured error only when it is done and has failed; a pending task
    reports [success() = false], [errorType() = 0] and
    [errorCondition() = 0]. *)
Theorem success_and_error_imply_done (w : World) :
  reachable X w ->
  (success w = true -> P.done (d w) = true)
  /\ (P.error (d w) <> None ->
      P.done (d w) = true /\ success w = false)
  /\ (P.done (d w) = false ->
      success w = false /\ errorType (d w) = 0
      /\ errorCondition (d w) = 0).
Proof.
  intros R. destruct (reachable_invariant w R) as [(_ & _ & Ae) C].
  unfold success, pendingClean in *. split; [| split].
  - intros Hs. destruct (P.done (d w)); [reflexivity |].
    destruct C as [Cs _]; [reflexivity | congruence].
  - intros He. split; [| exact (Ae He)].
    destruct (P.done (d w)); [reflexivity |].
    destruct C as [_ Ce]; [reflexivity | contradiction].
  - intros Hd. destruct (C Hd) as [Cs Ce].
    unfold errorType, errorCondition. rewrite Ce. auto.
Qed.

(** *** A done task *)

Lemma call_when_done (dn : World -> result World) (c : Call) (w : World) :
  P.done (d w) = true ->
  exists w', call X dn c w = Ok w'
    /\ outcome w' = outcome w /\ P.done (d w') = true
    /\ notifications w' = notifications w.
Proof.
  intros Hd. destruct c as [c | | b |]; simpl.
  - exists w. rewrite (complete_when_done X dn c w Hd). auto.
  - eexists; split; [reflexivity |]. unfold safeDelete.
    destruct (P.deleteme (d w)); [auto |].
    destruct (negb (P.insig (d (upd (P.set_deleteme true) w))));
      repeat split; auto; log_count.
  - eexists; split; [reflexivity |]. unfold go; simpl.
    destruct (P.client (d w)) as [cl |]; [destruct (stream cl) |];
      try destruct b; repeat split; auto; log_count.
  - eexists; split; [reflexivity |].
    unfold clientDisconnected, onDisconnect. rewrite Hd; simpl. auto.
Qed.

Lemma runDeferred_done_task (n : nat) (l : list Deferred) :
  forall w, P.done (d w) = true ->
  exists w', runDeferred X n l w = Ok w'
    /\ outcome w' = outcome w /\ P.done (d w') = true
    /\ notifications w' = notifications w.
Proof.
  induction l as [| c l IH]; intros w Hd; simpl.
  - exists w; auto.
  - assert (E1 : exists w1, dispatch X n c w = Ok w1
              /\ outcome w1 = outcome w /\ P.done (d w1) = true
              /\ notifications w1 = notifications w).
    { unfold dispatch. destruct (destroyed w); [exists w; auto |].
      destruct c.
      - exists w. split; [| auto].
        destruct n; simpl; rewrite Hd; reflexivity.
      - eexists; split; [reflexivity |]. repeat split; auto; log_count. }
    destruct E1 as (w1 & E1 & Eo & Ed & En). rewrite E1; simpl.
    destruct (IH w1 Ed) as (w' & E' & Eo' & Ed' & En').
    exists w'. repeat split; auto; congruence.
Qed.

Lemma step_when_done (w w' : World) :
  P.done (d w) = true -> step X w w' ->
  outcome w' = outcome w /\ P.done (d w') = true
  /\ notifications w' = notifications w.
Proof.
  intros Hd S. destruct S as [n c w w' E | n w w' E].
  - destruct (call_when_done (done X n) c w Hd) as (w2 & E2 & H).
    rewrite E2 in E; injection E as <-. exact H.
  - unfold loopTurn in E.
    destruct (runDeferred_done_task n (queue w) (setQueue [] w) Hd)
      as (w2 & E2 & H).
    rewrite E2 in E; injection E as <-. exact H.
Qed.

(** X3.  The result of a done task is final: whatever is called on it and
    however often the event loop turns afterwards, [success()], the status
    code, the status string and the stored error stay as they are and
    [finished()] is not emitted again.  Every call and every turn of the
    event loop on a done task returns. *)
Theorem done_result_is_final (w : World) :
  P.done (d w) = true ->
  (forall w', evolves X w w' ->
     outcome w' = outcome w /\ P.done (d w') = true
     /\ notifications w' = notifications w)
  /\ (forall dn c, exists w', call X dn c w = Ok w')
  /\ (forall n, exists w', loopTurn X n w = Ok w').
Proof.
  intros Hd. split; [| split].
  - induction 1 as [w | w1 w2 w3 _ IH S]; [auto |].
    destruct (IH Hd) as (Eo & Ed & En).
    destruct (step_when_done w2 w3 Ed S) as (Eo' & Ed' & En').
    repeat split; congruence.
  - intros dn c. destruct (call_when_done dn c w Hd) as (w' & E & _).
    exists w'; exact E.
  - intros n. unfold loopTurn.
    destruct (runDeferred_done_task n (queue w) (setQueue [] w) Hd)
      as (w' & E & _).
    exists w'; exact E.
Qed.

(** *** The depth of notification *)

Lemma call_doneSlot_irrelevant (dn dn' : World -> result World) (c : Call)
  (w : World) :
  P.done (d w) = true -> call X dn c w = call X dn' c w.
Proof.
  intros Hd. destruct c as [c | | b |]; simpl; try reflexivity.
  rewrite !(complete_when_done X _ c w Hd). reflexivity.
Qed.

Lemma calls_doneSlot_irrelevant (dn dn' : World -> result World)
  (l : list Call) :
  forall w, P.done (d w) = true -> calls X dn l w = calls X dn' l w.
Proof.
  induction l as [| c l IH]; intros w Hd; simpl; [reflexivity |].
  rewrite (call_doneSlot_irrelevant dn dn' c w Hd).
  destruct (call_when_done dn' c w Hd) as (w1 & E1 & _ & Ed & _).
  rewrite E1; simpl. apply IH; exact Ed.
Qed.

Lemma done_returns (n : nat) (w : World) :
  exists w', done X (S n) w = Ok w'.
Proof.
  destruct (P.done (d w)) eqn:Hd;
    [exists w; simpl; rewrite Hd; reflexivity |].
  destruct (P.insig (d w)) eqn:Hi;
    [exists w; simpl; rewrite Hd, Hi; reflexivity |].
  destruct (done_completes X n w Hd Hi) as (w1 & E & _).
  exists w1; exact E.
Qed.

Lemma call_fails_only_null_client (n : nat) (c : Call) (w : World)
  (f : Fault) :
  call X (done X (S n)) c w = Fail f ->
  f = NullClient
  /\ P.done (d w) = false /\ P.client (d w) = None
  /\ exists e, c = Complete (SetErrorXml e).
Proof.
  intros E. destruct c as [c | | b |]; cbn [call] in E;
    try discriminate.
  destruct (P.done (d w)) eqn:Hd;
    [rewrite (complete_when_done X _ c w Hd) in E; discriminate |].
  destruct c as [code str | e | code str];
    unfold complete, setSuccess, setErrorXml, setError in E;
    rewrite Hd in E; cbn [negb] in E.
  - match type of E with done X (S n) ?w0 = _ =>
      destruct (done_returns n w0) as (w' & E') end. congruence.
  - cbn [upd d P.client P.set_success] in E.
    destruct (P.client (d w)) eqn:Hc.
    + match type of E with done X (S n) ?w0 = _ =>
        destruct (done_returns n w0) as (w' & E') end. congruence.
    + injection E as <-. eauto.
  - match type of E with done X (S n) ?w0 = _ =>
      destruct (done_returns n w0) as (w' & E') end. congruence.
Qed.

(** X4.  [done()] always returns once one nested emission of [finished()]
    is allowed, and a larger allowance changes nothing: the slots run on a
    task that is already done, so the completion never re-enters itself.
    A method call fails only by the null client, namely when
    [setError(element)] is called on a pending task without a client. *)
Theorem notification_never_nests (n : nat) (w : World) :
  (exists w', done X (S n) w = Ok w')
  /\ done X (S n) w = done X 1 w
  /\ (forall c f,
        call X (done X (S n)) c w = Fail f <->
        f = NullClient
        /\ P.done (d w) = false /\ P.client (d w) = None
        /\ exists e, c = Complete (SetErrorXml e)).
Proof.
  split; [apply done_returns |]. split.
  - destruct (P.done (d w)) eqn:Hd; [simpl; rewrite Hd; reflexivity |].
    destruct (P.insig (d w)) eqn:Hi; [simpl; rewrite Hd, Hi; reflexivity |].
    rewrite (done_eq X n w Hd Hi), (done_eq X 0 w Hd Hi).
    unfold finished.
    rewrite (calls_doneSlot_irrelevant (done X n) (done X 0)); [reflexivity |].
    apply entering_flags.
  - intros c f. split; [apply call_fails_only_null_client |].
    intros (-> & Hd & Hc & e & ->). cbn [call complete].
    unfold setErrorXml. rewrite Hd; cbn [negb].
    cbn [upd d P.client P.set_success]. rewrite Hc. reflexivity.
Qed.

(** *** Destruction after the notification *)

Lemma call_inside_trace (dn : World -> result World) (c : Call) (w : World) :
  P.done (d w) = true -> P.insig (d w) = true ->
  exists w' evs,
    call X dn c w = Ok w'
    /\ log w' = (log w ++ evs)%list
    /\ forallb isNeutral evs = true
    /\ P.deleteme (d w') = P.deleteme (d w) || isSafeDelete c
    /\ P.done (d w') = true /\ P.insig (d w') = true.
Proof.
  intros Hd Hi. destruct c as [c | | b |]; cbn [call isSafeDelete].
  - exists w, []. rewrite (complete_when_done X dn c w Hd).
    rewrite app_nil_r, orb_false_r. auto 10.
  - exists (safeDelete w), []. split; [reflexivity |].
    unfold safeDelete. destruct (P.deleteme (d w)) eqn:Hm; simpl.
    + rewrite app_nil_r, Hm. auto 10.
    + rewrite Hi; simpl. rewrite app_nil_r. auto 10.
  - unfold go; simpl.
    destruct (P.client (d w)) as [cl |]; [destruct (stream cl) |];
      try destruct b;
      (eexists; eexists; split; [reflexivity |]); simpl;
      rewrite orb_false_r; auto 10.
  - exists w, []. unfold clientDisconnected, onDisconnect.
    rewrite Hd; simpl. rewrite app_nil_r, orb_false_r. auto 10.
Qed.

Lemma calls_inside_trace (dn : World -> result World) (l : list Call) :
  forall w, P.done (d w) = true -> P.insig (d w) = true ->
  exists w' evs,
    calls X dn l w = Ok w'
    /\ log w' = (log w ++ evs)%list
    /\ forallb isNeutral evs = true
    /\ P.deleteme (d w') = P.deleteme (d w) || existsb isSafeDelete l.
Proof.
  induction l as [| c l IH]; intros w Hd Hi; simpl.
  - exists w, []. rewrite app_nil_r, orb_false_r. auto 10.
  - destruct (call_inside_trace dn c w Hd Hi)
      as (w1 & ev1 & E1 & L1 & N1 & M1 & D1 & I1).
    rewrite E1; simpl.
    destruct (IH w1 D1 I1) as (w2 & ev2 & E2 & L2 & N2 & M2).
    exists w2, (ev1 ++ ev2)%list. split; [exact E2 |].
    split; [rewrite L2, L1, app_assoc; reflexivity |].
    split; [rewrite forallb_app, N1, N2; reflexivity |].
    rewrite M2, M1, orb_assoc. reflexivity.
Qed.

(** X5.  When [done()] completes a pending task, the log grows by
    [Finished], then by what the slots did (which neither notifies again
    nor destroys), then by the destruction if the task is marked; and it is
    marked exactly when [deleteme] or [autoDelete] was set at the moment of
    completion or a slot called [safeDelete()].  A slot that calls [go] and
    thereby changes [autoDelete] during the notification has no influence
    on this. *)
Theorem completion_destroys_iff_marked (n : nat) (w : World) :
  P.done (d w) = false -> P.insig (d w) = false ->
  exists w' evs,
    done X (S n) w = Ok w'
    /\ forallb isNeutral evs = true
    /\ P.deleteme (d w')
       = P.deleteme (d w) || P.autoDelete (d w)
         || existsb isSafeDelete (finishedSlots X (d (entering w)))
    /\ log w'
       = (log w ++ Finished :: evs
            ++ (if P.deleteme (d w') then [Destroyed] else []))%list.
Proof.
  intros Hd Hi. rewrite (done_eq X n w Hd Hi). unfold finished.
  destruct (entering_flags w) as [Ed Ei].
  destruct (entering_frame w) as (_ & _ & Em & El & _).
  destruct (calls_inside_trace (done X n)
              (finishedSlots X (d (emit Finished (entering w))))
              (emit Finished (entering w)) Ed Ei)
    as (wh & evs & E & L & N & M).
  rewrite E; cbn [bind]. exists (leaving wh), evs.
  split; [reflexivity |]. split; [exact N |].
  destruct (leaving_frame wh) as (_ & _ & _ & _ & Lm & _).
  cbn [emit d log] in M, L. rewrite Em in M. rewrite El in L.
  split.
  - rewrite Lm. exact M.
  - rewrite Lm. destruct (P.deleteme (d wh)) eqn:Hm;
      unfold leaving, deleteSingle, emit, upd;
      cbn [d log P.deleteme P.set_insig]; rewrite Hm; cbn [log];
      rewrite L, <- !app_assoc; simpl; rewrite ?app_nil_r; reflexivity.
Qed.

(** *** Identity of a task *)

Lemma call_ident (dn : World -> result World) :
  (forall w w', dn w = Ok w' -> ident w' = ident w) ->
  forall c w w', call X dn c w = Ok w' -> ident w' = ident w.
Proof.
  intros Hdn c w w' E. destruct c as [c | | b |]; cbn [call] in E.
  - destruct c as [code str | e | code str];
      unfold complete, setSuccess, setErrorXml, setError in E;
      destruct (negb (P.done (d w)));
      try (injection E as <-; reflexivity).
    + apply Hdn in E. exact E.
    + cbn [upd d P.client P.set_success] in E.
      destruct (P.client (d w)); [| discriminate].
      apply Hdn in E. exact E.
    + apply Hdn in E. exact E.
  - injection E as <-. unfold safeDelete.
    destruct (P.deleteme (d w)); [reflexivity |].
    destruct (negb (P.insig (d (upd (P.set_deleteme true) w))));
      reflexivity.
  - injection E as <-. unfold go; simpl.
    destruct (P.client (d w)) as [cl |]; [destruct (stream cl) |];
      try destruct b; reflexivity.
  - injection E as <-. unfold clientDisconnected, onDisconnect.
    destruct (negb (P.done (d w))); reflexivity.
Qed.

Lemma calls_ident (dn : World -> result World) :
  (forall w w', dn w = Ok w' -> ident w' = ident w) ->
  forall l w w', calls X dn l w = Ok w' -> ident w' = ident w.
Proof.
  intros Hdn l. induction l as [| c l IH]; intros w w' E; simpl in E.
  - injection E as <-; reflexivity.
  - destruct (call X dn c w) as [w1 | f] eqn:E1; [| discriminate].
    simpl in E. rewrite (IH w1 w' E). exact (call_ident dn Hdn c w w1 E1).
Qed.

Lemma done_ident (n : nat) :
  forall w w', done X n w = Ok w' -> ident w' = ident w.
Proof.
  induction n as [| n IH]; intros w w' E.
  - simpl in E. destruct (P.done (d w) || P.insig (d w));
      [injection E as <-; reflexivity | discriminate].
  - destruct (P.done (d w)) eqn:Hd;
      [simpl in E; rewrite Hd in E; injection E as <-; reflexivity |].
    destruct (P.insig (d w)) eqn:Hi;
      [simpl in E; rewrite Hd, Hi in E; injection E as <-; reflexivity |].
    rewrite (done_eq X n w Hd Hi) in E.
    destruct (finished X (done X n) (entering w)) as [wh | f] eqn:E1;
      [| discriminate].
    cbn [bind] in E. injection E as <-.
    unfold finished in E1. apply (calls_ident (done X n) IH) in E1.
    transitivity (ident wh).
    + unfold leaving; simpl. destruct (P.deleteme (d wh)); reflexivity.
    + rewrite E1. unfold entering; simpl.
      destruct (P.deleteme (d w) || P.autoDelete (d w)); reflexivity.
Qed.

Lemma runDeferred_ident (n : nat) (l : list Deferred) :
  forall w w', runDeferred X n l w = Ok w' -> ident w' = ident w.
Proof.
  induction l as [| c l IH]; intros w w' E; simpl in E.
  - injection E as <-; reflexivity.
  - destruct (dispatch X n c w) as [w1 | f] eqn:E1; [| discriminate].
    simpl in E. rewrite (IH w1 w' E).
    unfold dispatch in E1. destruct (destroyed w);
      [injection E1 as <-; reflexivity |].
    destruct c; [exact (done_ident n w w1 E1) |].
    injection E1 as <-; reflexivity.
Qed.

Lemma evolves_ident (w w' : World) : evolves X w w' -> ident w' = ident w.
Proof.
  induction 1 as [w | w1 w2 w3 _ IH S]; [reflexivity |].
  rewrite <- IH. destruct S as [n c w w' E | n w w' E].
  - exact (call_ident (done X n) (done_ident n) c w w' E).
  - unfold loopTurn in E. exact (runDeferred_ident n _ _ _ E).
Qed.

(** X6.  A task made by [Task(Task *parent)] keeps its identifier and its
    client through every call and every turn of the event loop; hence no
    method call on it fails, and [iqVerify] always gives an answer. *)
Theorem child_task_keeps_client (uninit : Z) (cl : Client) (uid : string)
  (w : World) :
  evolves X (newChild uninit cl uid) w ->
  P.id (d w) = uid /\ P.client (d w) = Some cl
  /\ (forall n c, exists w', call X (done X (S n)) c w = Ok w')
  /\ (forall x to id xmlns, exists b, iqVerify (d w) x to id xmlns = Ok b).
Proof.
  intros Ev. apply evolves_ident in Ev. unfold ident in Ev; simpl in Ev.
  injection Ev as Eid Ecl.
  split; [exact Eid |]. split; [exact Ecl |]. split.
  - intros n c.
    destruct (call X (done X (S n)) c w) as [w' | f] eqn:E;
      [exists w'; reflexivity |].
    apply call_fails_only_null_client in E as (_ & _ & Hc & _). congruence.
  - intros x to id xmlns. unfold iqVerify. rewrite Ecl.
    repeat match goal with
           | |- context [if ?b then _ else _] => destruct b
           end; eauto.
Qed.

(** *** Disconnection and sending *)

(** X7.  A reply that completes the task after [onDisconnect()] but before
    the event loop has turned wins: the task is done with the values of
    [setSuccess], [finished()] fires once, and the call of [done()] that
    [onDisconnect()] had queued changes neither the result nor the count of
    notifications when the event loop turns. *)
Theorem reply_after_disconnect_wins (n m : nat) (code : Z) (str : string)
  (w : World) :
  P.done (d w) = false -> P.insig (d w) = false ->
  exists w1 w2,
    setSuccess (done X (S n)) code str (onDisconnect X w) = Ok w1
    /\ outcome w1 = (true, code, str, P.error (d w))
    /\ P.done (d w1) = true
    /\ notifications w1 = S (notifications w)
    /\ loopTurn X m w1 = Ok w2
    /\ outcome w2 = outcome w1
    /\ notifications w2 = notifications w1.
Proof.
  intros Hd Hi.
  assert (Hd' : P.done (d (onDisconnect X w)) = false)
    by (unfold onDisconnect; rewrite Hd; exact Hd).
  unfold setSuccess. rewrite Hd'; cbn [negb].
  match goal with
  | |- exists w1 w2, done X (S n) ?w0 = _ /\ _ =>
      assert (H0d : P.done (d w0) = false) by exact Hd';
      assert (H0i : P.insig (d w0) = false)
        by (unfold onDisconnect; rewrite Hd; exact Hi);
      assert (H0o : outcome w0 = (true, code, str, P.error (d w)))
        by (unfold onDisconnect; rewrite Hd; reflexivity);
      assert (H0n : notifications w0 = notifications w)
        by (unfold onDisconnect; rewrite Hd; reflexivity);
      destruct (done_completes X n w0 H0d H0i)
        as (w1 & E & Eo & Ed & _ & _ & En & _)
  end.
  unfold loopTurn.
  destruct (runDeferred_done_task m (queue w1) (setQueue [] w1) Ed)
    as (w2 & E2 & Eo2 & _ & En2).
  exists w1, w2. repeat split; try assumption; congruence.
Qed.

(** X8.  [go(true)] on a task without transport queues [deleteLater()]
    and nothing else.  When the event loop then turns (nothing else being
    queued, the task not yet destroyed), the task is destroyed although
    [finished()] was never emitted for this send: the count of
    notifications, the terminal flag and the result are as before, and
    [onGo()] was not entered. *)
Theorem broken_go_autoDelete_is_silent (n : nat) (w : World) :
  hasTransport (d w) = false -> queue w = [] -> destroyed w = false ->
  exists w',
    loopTurn X n (go true w) = Ok w'
    /\ log w' = (log w ++ [brokenConnectionWarning; Destroyed])%list
    /\ notifications w' = notifications w
    /\ P.done (d w') = P.done (d w)
    /\ outcome w' = outcome w.
Proof.
  intros Ht Hq Hx.
  assert (Hgo : go true w
                = post DeferredDelete
                    (emit brokenConnectionWarning
                       (upd (P.set_autoDelete true) w))).
  { unfold hasTransport in Ht. unfold go; simpl.
    destruct (P.client (d w)) as [cl |]; [destruct (stream cl) |];
      try discriminate; reflexivity. }
  rewrite Hgo. unfold loopTurn, post; simpl. rewrite Hq; simpl.
  unfold dispatch.
  assert (Hx' : destroyed
                  (setQueue []
                     {| d := P.set_autoDelete true (d w);
                        log := log w ++ [brokenConnectionWarning];
                        queue := [DeferredDelete] |}) = false).
  { unfold destroyed in *; simpl. rewrite existsb_app, Hx. reflexivity. }
  rewrite Hx'. simpl. eexists; split; [reflexivity |].
  simpl. rewrite <- app_assoc. repeat split. log_count.
Qed.

End Lifecycle.

(** ** Further properties of the dispatch *)

Section TreeDispatch.

Variable x : Dom.Element.


Lemma scan_app (l1 l2 : list QObject) :
  scan x (l1 ++ l2)
  = if fst (scan x l1) then scan x l1
    else (fst (scan x l2), (snd (scan x l1) ++ snd (scan x l2))%list).
Proof.
  induction l1 as [| o l IH]; simpl.
  - destruct (scan x l2); reflexivity.
  - destruct (negb (inheritsTask o)); [exact IH |].
    destruct (fst (vtake x o)); simpl; [reflexivity |].
    rewrite IH. destruct (scan x l) as [b t]; simpl.
    destruct b; simpl; [reflexivity |].
    rewrite app_assoc. reflexivity.
Qed.

Lemma scan_filter (l : list QObject) :
  scan x (filter inheritsTask l) = scan x l.
Proof.
  induction l as [| o l IH]; simpl; [reflexivity |].
  destruct (inheritsTask o) eqn:Ht; simpl; [| exact IH].
  rewrite Ht; simpl. rewrite IH. reflexivity.
Qed.

(** X9.  Scanning two lists of children one after the other: if the first
    list holds a claimant, the second is not looked at; otherwise the
    verdict is that of the second list and the visits are those of both.
    Children that are not tasks can be removed without changing verdict or
    visits. *)
Theorem scan_composes (l1 l2 : list QObject) :
  scan x (l1 ++ l2)
  = (if fst (scan x l1) then scan x l1
     else (fst (scan x l2), (snd (scan x l1) ++ snd (scan x l2))%list))
  /\ scan x (filter inheritsTask (l1 ++ l2)) = scan x (l1 ++ l2).
Proof. split; [apply scan_app | apply scan_filter]. Qed.




End TreeDispatch.

(** ** Further properties of the reply verification *)

(** X11.  With a client, [iqVerify] returns true exactly when [x] is an
    [iq] element, the identifier and namespace rules pass, and the sender
    falls under one of the three address rules: no sender, and [to] empty or
    the server; a sender that is ours up to the resource or of our own
    domain, and [to] empty, ours up to the resource, or the server; any
    other sender, equal to [to]. *)
Theorem iqVerify_accepts_iff (p : TaskPrivate.t) (cl : Client)
  (x : Dom.Element) (to : Jid.t) (id xmlns : string) :
  P.client p = Some cl ->
  let from := Jid.fromString (Dom.attribute x "from") in
  let ours :=
    Jid.compare from (jid cl) false
    || Jid.compare from (Jid.fromString (Jid.domain (jid cl))) false in
  iqVerify p x to id xmlns = Ok true <->
  Dom.tagName x = "iq"
  /\ (id = "" \/ Dom.attribute x "id" = id)
  /\ (xmlns = "" \/ Dom.queryNS x = xmlns)
  /\ ((Jid.isEmpty from = true
       /\ (Jid.isEmpty to = true \/ Jid.compare to (host cl) true = true))
      \/ (Jid.isEmpty from = false /\ ours = true
          /\ (Jid.isEmpty to = true \/ Jid.compare to (jid cl) false = true
              \/ Jid.compare to (host cl) true = true))
      \/ (Jid.isEmpty from = false /\ ours = false
          /\ Jid.compare from to true = true)).
Proof.
  intros Hc from ours. split.
  - intros Hv.
    destruct (iqVerify_true p cl x to id xmlns Hc Hv) as (Ht & Ha & Hi & Hn).
    fold from in Ha. fold ours in Ha.
    split; [apply String.eqb_eq; exact Ht |].
    split; [apply orb_true_iff in Hi as [H | H];
            apply String.eqb_eq in H; auto |].
    split; [apply orb_true_iff in Hn as [H | H];
            apply String.eqb_eq in H; auto |].
    destruct (Jid.isEmpty from).
    + left. split; [reflexivity |]. apply orb_true_iff in Ha. exact Ha.
    + destruct ours.
      * right; left. split; [reflexivity |]. split; [reflexivity |].
        apply orb_true_iff in Ha as [H | H]; [| auto].
        apply orb_true_iff in H as [H | H]; auto.
      * right; right. auto.
  - intros (Ht & Hi & Hn & Ha).
    assert (Hi' : negb (String.eqb id "")
                  && negb (String.eqb (Dom.attribute x "id") id) = false).
    { destruct Hi as [-> | H]; [reflexivity |].
      apply String.eqb_eq in H. rewrite H. apply andb_false_r. }
    assert (Hn' : negb (String.eqb xmlns "")
                  && negb (String.eqb (Dom.queryNS x) xmlns) = false).
    { destruct Hn as [-> | H]; [reflexivity |].
      apply String.eqb_eq in H. rewrite H. apply andb_false_r. }
    unfold iqVerify. rewrite Ht, Hc. cbv zeta. fold from. fold ours.
    rewrite Hi', Hn'. cbn [String.eqb Ascii.eqb Bool.eqb negb].
    destruct Ha as [(He & Hto) | [(He & Ho & Hto) | (He & Ho & Hft)]];
      rewrite He; rewrite ?Ho.
    + destruct Hto as [H | H]; rewrite H; cbn [negb andb];
        rewrite ?andb_false_r; reflexivity.
    + destruct Hto as [H | [H | H]]; rewrite H; cbn [negb andb];
        rewrite ?andb_false_r; reflexivity.
    + rewrite Hft. reflexivity.
Qed.

Lemma compare_bare_withoutResource (a b : Jid.t) :
  Jid.compare a b false = Jid.compare a (Jid.withoutResource b) false.
Proof. reflexivity. Qed.

(** X12.  [iqVerify] looks at our own address only up to its resource: two
    clients with the same server address whose addresses differ at most in
    the resource give the same answer. *)
Theorem iqVerify_ignores_own_resource (p p' : TaskPrivate.t)
  (cl cl' : Client) (x : Dom.Element) (to : Jid.t) (id xmlns : string) :
  P.client p = Some cl -> P.client p' = Some cl' ->
  Jid.withoutResource (jid cl) = Jid.withoutResource (jid cl') ->
  host cl = host cl' ->
  iqVerify p x to id xmlns = iqVerify p' x to id xmlns.
Proof.
  intros Hc Hc' Hj Hh. unfold iqVerify. rewrite Hc, Hc'. cbv zeta.
  rewrite !(compare_bare_withoutResource _ (jid cl)).
  rewrite !(compare_bare_withoutResource _ (jid cl')).
  assert (Hdom : Jid.domain (jid cl) = Jid.domain (jid cl')).
  { unfold Jid.withoutResource in Hj. injection Hj; auto. }
  rewrite Hj, Hh, Hdom. reflexivity.
Qed.

(** X13.  [iqVerify] rejects an element that is not an [iq] element before
    it looks at the client, so it answers false even on a task without
    client; it fails exactly on an [iq] element when the client is null. *)
Theorem iqVerify_fails_iff_null_client (p : TaskPrivate.t) (x : Dom.Element)
  (to : Jid.t) (id xmlns : string) :
  (Dom.tagName x <> "iq" -> iqVerify p x to id xmlns = Ok false)
  /\ (forall f,
        iqVerify p x to id xmlns = Fail f <->
        f = NullClient /\ Dom.tagName x = "iq" /\ P.client p = None).
Proof.
  split.
  - intros Hne. unfold iqVerify.
    destruct (String.eqb (Dom.tagName x) "iq") eqn:Ht; [| reflexivity].
    apply String.eqb_eq in Ht. contradiction.
  - intros f. unfold iqVerify.
    destruct (String.eqb (Dom.tagName x) "iq") eqn:Ht; cbn [negb].
    + apply String.eqb_eq in Ht.
      destruct (P.client p) as [cl |].
      * split; [| intros (_ & _ & H); discriminate].
        cbv zeta.
        repeat match goal with
               | |- context [if ?b then _ else _] => destruct b
               end; discriminate.
      * split; [intros H; injection H as <-; auto | intros (-> & _); auto].
    + split; [discriminate |]. intros (_ & H & _).
      rewrite H in Ht. discriminate.
Qed.

(** ** Further properties of the stored error *)

(** X14.  The two enumerations of [Stanza::Error] number their values
    apart from each other, from 1 to 5 and from 1 to 22.  Hence, as long as
    a stored error holds values of the enumerations, [errorType()] and
    [errorCondition()] are 0 exactly when no error is stored, and otherwise
    lie in those ranges. *)
Theorem errorType_zero_iff_no_error (p : TaskPrivate.t) :
  (forall e, P.error p = Some e ->
     isTypeValue (Stanza.Error.type e)
     /\ isCondValue (Stanza.Error.condition e)) ->
  (errorType p = 0 <-> P.error p = None)
  /\ (errorCondition p = 0 <-> P.error p = None)
  /\ 0 <= errorType p <= 5 /\ 0 <= errorCondition p <= 22
  /\ (forall t t', Stanza.Error.typeValue t = Stanza.Error.typeValue t' ->
        t = t')
  /\ (forall c c', Stanza.Error.condValue c = Stanza.Error.condValue c' ->
        c = c').
Proof.
  intros H.
  assert (Ht : forall t, 1 <= Stanza.Error.typeValue t <= 5)
    by (intros []; simpl; lia).
  assert (Hcv : forall c, 1 <= Stanza.Error.condValue c <= 22)
    by (intros []; simpl; lia).
  unfold errorType, errorCondition.
  destruct (P.error p) as [e |].
  - destruct (H e eq_refl) as [[t Et] [c Ec]].
    rewrite Et, Ec. specialize (Ht t). specialize (Hcv c).
    repeat split; try lia; try discriminate;
      try (intros [] []; simpl; intros; (reflexivity || discriminate)).
  - repeat split; try lia; try reflexivity;
      try (intros [] []; simpl; intros; (reflexivity || discriminate)).
Qed.

(** ** Further properties of the destruction *)

Section DestructionOnce.

Variable X : Externals.

Lemma done_destroys_at_most_once (n : nat) (w w' : World) :
  P.insig (d w) = false -> destructions w = 0%nat ->
  done X n w = Ok w' ->
  P.insig (d w') = false /\ (destructions w' <= 1)%nat.
Proof.
  intros Hi H0 E. destruct (P.done (d w)) eqn:Hd.
  - destruct n; simpl in E; rewrite Hd in E; simpl in E;
      injection E as <-; (split; [exact Hi | lia]).
  - destruct n as [| n]; [simpl in E; rewrite Hd, Hi in E; discriminate |].
    destruct (done_completes X n w Hd Hi)
      as (w1 & E1 & _ & _ & Ei & _ & _ & Ex).
    rewrite E1 in E; injection E as <-. split; [exact Ei |].
    rewrite Ex, H0. destruct (P.deleteme (d w1)); simpl; lia.
Qed.

Lemma runDeferred_destroys_at_most_once (n : nat) (l : list Deferred) :
  forall w w', P.insig (d w) = false -> (destructions w <= 1)%nat ->
  runDeferred X n l w = Ok w' -> (destructions w' <= 1)%nat.
Proof.
  induction l as [| c l IH]; intros w w' Hi H1 E; simpl in E.
  - injection E as <-; exact H1.
  - destruct (dispatch X n c w) as [w1 | f] eqn:E1; [| discriminate].
    simpl in E. unfold dispatch in E1.
    destruct (destroyed w) eqn:Hx.
    + injection E1 as <-. exact (IH w w' Hi H1 E).
    + apply destroyed_destructions in Hx. destruct c.
      * destruct (done_destroys_at_most_once n w w1 Hi Hx E1) as [Hi1 H11].
        exact (IH w1 w' Hi1 H11 E).
      * injection E1 as <-.
        apply (IH (emit Destroyed w) w'); [exact Hi | | exact E].
        rewrite destructions_emit; simpl. lia.
Qed.

(** X15.  Between calls a task is never inside its notification, and it
    carries the deletion mark only when it has been destroyed.  One more
    call, or one more turn of the event loop, on a task that is not yet
    destroyed destroys it at most once. *)
Theorem live_task_destroyed_at_most_once (w w' : World) :
  reachable X w -> destroyed w = false -> step X w w' ->
  P.insig (d w) = false /\ P.deleteme (d w) = false
  /\ P.insig (d w') = false
  /\ (P.deleteme (d w') = true -> destroyed w' = true)
  /\ (destructions w' <= 1)%nat.
Proof.
  intros R Hx S.
  destruct (reachable_settled X w R) as [Hi Hm].
  assert (Hdm : P.deleteme (d w) = false).
  { destruct (P.deleteme (d w)); [| reflexivity].
    rewrite Hm in Hx by reflexivity; discriminate. }
  assert (H0 : destructions w = 0%nat) by (apply destroyed_destructions, Hx).
  assert (R' : reachable X w').
  { destruct S as [n c w w' E | n w w' E];
      [eapply reach_call | eapply reach_turn]; eassumption. }
  destruct (reachable_settled X w' R') as [Hi' Hm'].
  split; [exact Hi |]. split; [exact Hdm |]. split; [exact Hi' |].
  split; [exact Hm' |].
  destruct S as [n c w w' E | n w w' E].
  - destruct c as [c | | b |]; cbn [call] in E.
    + destruct (P.done (d w)) eqn:Hd.
      * rewrite (complete_when_done X _ c w Hd) in E; injection E as <-.
        lia.
      * destruct c as [code str | e | code str];
          unfold complete, setSuccess, setErrorXml, setError in E;
          rewrite Hd in E; cbn [negb] in E;
          try (cbn [upd d P.client P.set_success] in E;
               destruct (P.client (d w)); [| discriminate]);
          (eapply done_destroys_at_most_once; [| | exact E]);
          simpl; assumption.
    + injection E as <-. unfold safeDelete. rewrite Hdm; simpl.
      rewrite Hi; simpl. log_count.
      fold (destructions w). lia.
    + injection E as <-. unfold go; simpl.
      destruct (P.client (d w)) as [cl |]; [destruct (stream cl) |];
        try destruct b; log_count; fold (destructions w); lia.
    + injection E as <-. unfold clientDisconnected, onDisconnect.
      destruct (P.done (d w)); simpl; [lia |].
      log_count; fold (destructions w); lia.
  - unfold loopTurn in E.
    eapply runDeferred_destroys_at_most_once; [| | exact E];
      simpl; [assumption |].
    change (destructions (setQueue [] w)) with (destructions w). lia.
Qed.

End DestructionOnce.

(** ** The further properties at concrete inputs *)

Import MoreSamples.

Lemma afterReply_call :
  call greedy (done greedy 1) (Complete (SetErrorXml errorReply)) fresh
  = Ok afterReply.
Proof. vm_compute. reflexivity. Defined.

Lemma afterReply_reachable : reachable greedy afterReply.
Proof.
  exact (reach_call greedy 1 (Complete (SetErrorXml errorReply)) fresh
           afterReply (reach_child greedy 12345 connected "a1")
           afterReply_call).
Defined.

Lemma afterReply_step : step greedy fresh afterReply.
Proof.
  exact (step_call greedy 1 (Complete (SetErrorXml errorReply)) fresh
           afterReply afterReply_call).
Defined.

Lemma afterReply_done : P.done (d afterReply) = true.
Proof. vm_compute. reflexivity. Defined.

(** X1 *)
Lemma notified_once_iff_done_witness :
  reachable greedy afterReply
  /\ notifications afterReply
     = (if P.done (d afterReply) then 1 else 0)%nat.
Proof.
  split; [exact afterReply_reachable |].
  exact (notified_once_iff_done greedy afterReply afterReply_reachable).
Defined.

(** X2 *)
Lemma success_and_error_imply_done_witness :
  reachable greedy afterReply
  /\ (success afterReply = true -> P.done (d afterReply) = true)
  /\ (P.error (d afterReply) <> None ->
      P.done (d afterReply) = true /\ success afterReply = false)
  /\ (P.done (d afterReply) = false ->
      success afterReply = false /\ errorType (d afterReply) = 0
      /\ errorCondition (d afterReply) = 0).
Proof.
  split; [exact afterReply_reachable |].
  exact (success_and_error_imply_done greedy afterReply
           afterReply_reachable).
Defined.

(** X3 *)
Lemma done_result_is_final_witness :
  P.done (d afterReply) = true
  /\ (forall w', evolves greedy afterReply w' ->
        outcome w' = outcome afterReply /\ P.done (d w') = true
        /\ notifications w' = notifications afterReply)
  /\ (forall dn c, exists w', call greedy dn c afterReply = Ok w')
  /\ (forall n, exists w', loopTurn greedy n afterReply = Ok w').
Proof.
  split; [exact afterReply_done |].
  exact (done_result_is_final greedy afterReply afterReply_done).
Defined.

(** X5 *)
Lemma completion_destroys_iff_marked_witness :
  (P.done (d fresh) = false /\ P.insig (d fresh) = false)
  /\ exists w' evs,
       done greedy 1 fresh = Ok w'
       /\ forallb isNeutral evs = true
       /\ P.deleteme (d w')
          = P.deleteme (d fresh) || P.autoDelete (d fresh)
            || existsb isSafeDelete
                 (finishedSlots greedy (d (entering fresh)))
       /\ log w'
          = (log fresh ++ Finished :: evs
               ++ (if P.deleteme (d w') then [Destroyed] else []))%list.
Proof.
  split; [split; reflexivity |].
  exact (completion_destroys_iff_marked greedy 0 fresh eq_refl eq_refl).
Defined.

(** X6 *)
Lemma child_task_keeps_client_witness :
  evolves greedy (newChild 12345 connected "a1") afterReply
  /\ P.id (d afterReply) = "a1"
  /\ P.client (d afterReply) = Some connected
  /\ (forall n c, exists w', call greedy (done greedy (S n)) c afterReply
                              = Ok w')
  /\ (forall x to id xmlns,
        exists b, iqVerify (d afterReply) x to id xmlns = Ok b).
Proof.
  assert (Ev : evolves greedy (newChild 12345 connected "a1") afterReply)
    by exact (evolves_step greedy _ _ _ (evolves_refl greedy _)
                afterReply_step).
  split; [exact Ev |].
  exact (child_task_keeps_client greedy 12345 connected "a1" afterReply Ev).
Defined.

(** X7 *)
Lemma reply_after_disconnect_wins_witness :
  (P.done (d fresh) = false /\ P.insig (d fresh) = false)
  /\ exists w1 w2,
       setSuccess (done quiet 1) 200 "ok" (onDisconnect quiet fresh) = Ok w1
       /\ outcome w1 = (true, 200, "ok", P.error (d fresh))
       /\ P.done (d w1) = true
       /\ notifications w1 = S (notifications fresh)
       /\ loopTurn quiet 1 w1 = Ok w2
       /\ outcome w2 = outcome w1
       /\ notifications w2 = notifications w1.
Proof.
  split; [split; reflexivity |].
  exact (reply_after_disconnect_wins quiet 0 1 200 "ok" fresh
           eq_refl eq_refl).
Defined.

(** X8 *)
Lemma broken_go_autoDelete_is_silent_witness :
  (hasTransport (d offline) = false /\ queue offline = []
   /\ destroyed offline = false)
  /\ exists w',
       loopTurn quiet 1 (go true offline) = Ok w'
       /\ log w' = (log offline ++ [brokenConnectionWarning; Destroyed])%list
       /\ notifications w' = notifications offline
       /\ P.done (d w') = P.done (d offline)
       /\ outcome w' = outcome offline.
Proof.
  split; [repeat split |].
  exact (broken_go_autoDelete_is_silent quiet 1 offline
           eq_refl eq_refl eq_refl).
Defined.

(** X11 *)
Lemma iqVerify_accepts_iff_witness :
  P.client (d fresh) = Some connected
  /\ iqVerify (d fresh) serverReply local "a1" "" = Ok true.
Proof.
  split; [reflexivity |].
  apply (iqVerify_accepts_iff (d fresh) connected serverReply local "a1" ""
           eq_refl).
  split; [reflexivity |]. split; [right; reflexivity |].
  split; [left; reflexivity |].
  right; left. split; [reflexivity |]. split; [reflexivity |].
  right; left; reflexivity.
Defined.

(** X12 *)
Lemma iqVerify_ignores_own_resource_witness :
  (P.client (d fresh) = Some connected
   /\ P.client (d freshElsewhere) = Some connectedElsewhere
   /\ Jid.withoutResource (jid connected)
      = Jid.withoutResource (jid connectedElsewhere)
   /\ host connected = host connectedElsewhere)
  /\ iqVerify (d fresh) selfReply local "a1" ""
     = iqVerify (d freshElsewhere) selfReply local "a1" "".
Proof.
  split; [repeat split |].
  exact (iqVerify_ignores_own_resource (d fresh) (d freshElsewhere)
           connected connectedElsewhere selfReply local "a1" ""
           eq_refl eq_refl eq_refl eq_refl).
Defined.

(** X14 *)
Lemma errorType_zero_iff_no_error_witness :
  (forall e, P.error (d afterReply) = Some e ->
     isTypeValue (Stanza.Error.type e)
     /\ isCondValue (Stanza.Error.condition e))
  /\ (errorType (d afterReply) = 0 <-> P.error (d afterReply) = None)
  /\ 0 <= errorType (d afterReply) <= 5.
Proof.
  assert (H : forall e, P.error (d afterReply) = Some e ->
                isTypeValue (Stanza.Error.type e)
                /\ isCondValue (Stanza.Error.condition e)).
  { intros e E. vm_compute in E. injection E as <-. split.
    - exists Stanza.Error.Auth; reflexivity.
    - exists Stanza.Error.NotAuthorized; reflexivity. }
  split; [exact H |].
  destruct (errorType_zero_iff_no_error (d afterReply) H)
    as (H1 & _ & H3 & _).
  split; [exact H1 | exact H3].
Defined.

(** X15 *)
Lemma live_task_destroyed_at_most_once_witness :
  (reachable greedy fresh /\ destroyed fresh = false
   /\ step greedy fresh afterReply)
  /\ P.insig (d fresh) = false /\ P.deleteme (d fresh) = false
  /\ P.insig (d afterReply) = false
  /\ (P.deleteme (d afterReply) = true -> destroyed afterReply = true)
  /\ (destructions afterReply <= 1)%nat.
Proof.
  assert (R : reachable greedy fresh)
    by exact (reach_child greedy 12345 connected "a1").
  assert (Hx : destroyed fresh = false) by reflexivity.
  split; [split; [exact R | split; [exact Hx | exact afterReply_step]] |].
  exact (live_task_destroyed_at_most_once greedy fresh afterReply R Hx
           afterReply_step).
Defined.

(** X4 *)
Lemma notification_never_nests_witness :
  done greedy 3 fresh = done greedy 1 fresh
  /\ (exists w', done greedy 3 fresh = Ok w').
Proof.
  destruct (notification_never_nests greedy 2 fresh) as (H1 & H2 & _).
  split; [exact H2 | exact H1].
Defined.

(** X9 *)
Lemma scan_composes_witness :
  scan plainReply
    ([Other "QTimer"; TaskObj "a" (Some (fun _ => false)) []]
     ++ [TaskObj "b" (Some (fun _ => true)) []])
  = (true, ["a"; "b"]).
Proof.
  rewrite (proj1 (scan_composes plainReply
                    [Other "QTimer"; TaskObj "a" (Some (fun _ => false)) []]
                    [TaskObj "b" (Some (fun _ => true)) []])).
  reflexivity.
Defined.


(** X13 *)
Lemma iqVerify_fails_iff_null_client_witness :
  iqVerify (Task.init 0) (Dom.Elem "message" [] []) local "a1" "" = Ok false
  /\ iqVerify (Task.init 0) plainReply local "a1" "" = Fail NullClient.
Proof.
  split.
  - apply (proj1 (iqVerify_fails_iff_null_client (Task.init 0)
                    (Dom.Elem "message" [] []) local "a1" "")).
    discriminate.
  - apply (proj2 (iqVerify_fails_iff_null_client (Task.init 0) plainReply
                    local "a1" "")).
    repeat split.
Defined.

(** ** Where two claims fail as stated *)


(** C10 as stated fails: the task completed by the forced disconnect and
    the task completed by [setSuccess()] with its default arguments agree
    in the status code and differ in [success()], but [success()] is not
    the only difference: the status strings differ too. *)
Lemma statusString_separates_disconnect_from_success :
  exists wd ws,
    loopTurn quiet 1 (onDisconnect quiet fresh) = Ok wd
    /\ setSuccess (done quiet 1) defaultCode defaultStr fresh = Ok ws
    /\ statusCode wd = statusCode ws
    /\ success wd <> success ws
    /\ statusString wd = "Disconnected"
    /\ statusString ws = ""
    /\ statusString wd <> statusString ws.
Proof.
  eexists. eexists.
  split; [vm_compute; reflexivity |].
  split; [vm_compute; reflexivity |].
  repeat split; discriminate.
Qed.
